(** * Data Lake path clients: recursive ACL change, delete and seekable upload

    A shallow embedding of the hand-written orchestration code of
    [DataLakePathClient] and [DataLakeFileClient]:

    - [setAccessControlRecursiveInternal], the continuation-token loop behind
      [setAccessControlRecursive], [updateAccessControlRecursive] and
      [removeAccessControlRecursive];
    - [delete], the continuation-token loop around the remote delete call;
    - [uploadSeekableInternal], the create / append / flush sequence behind
      [upload] and [uploadFile].

    Conventions of the embedding.

    - A JavaScript [number] that holds a byte count, a batch number or an item
      count is an integer of [Z]; [NaN] and fractions are outside the model.
    - An optional field ([x?: T], possibly [undefined]) is an [option].
    - An [async] function becomes a function that returns its [Outcome]
      (returned value or thrown exception) together with the list of effects
      it performed, in the order it performed them.
    - The remote operation layer ([pathContext]) is a parameter, and so are
      the constants, types and transforms the code imports from other
      modules.  The worker pool [Batch] is modelled from its specification.
    - Tracing ([createSpan], [span.setStatus], [span.end]) has no influence on
      results or remote calls and is left out. *)

From Stdlib Require Import ZArith List String Ascii Bool Lia PeanoNat.
Import ListNotations.

Local Open Scope Z_scope.

(** ** Exceptions and outcomes *)

(** Which check raised a [RangeError]; it stands for the message text. *)
Inductive RangeReason : Type :=
| MaxBatchesTooSmall            (* Options maxBatches must be larger than 0. *)
| BatchSizeTooSmall             (* Options batchSize must be larger than 0. *)
| SizeTooBig                    (* size must be <= FILE_MAX_SIZE_BYTES. *)
| ChunkSizeOutOfRange           (* chunkSize option must be >= 1 and <= ... *)
| MaxConcurrencyNotPositive     (* maxConcurrency must be > 0. *)
| SingleUploadThresholdOutOfRange
| TooManyBlocks.                (* the number of chunks must be <= ... *)

(** Modelled from the spec: the class [DataLakeAclChangeFailedError] of
    [./utils/DataLakeAclChangeFailedError], a dedicated error that wraps the
    underlying cause and carries the continuation token as of the last
    successful batch.  Its constructor has the two arguments of the call
    [new DataLakeAclChangeFailedError(e, continuationToken)].  [Error] stands
    for any other exception, thrown by the remote layer or by a callback. *)
Inductive Exn : Type :=
| RangeError (reason : RangeReason)
| Error (message : string)
| DataLakeAclChangeFailedError (innerError : Exn)
                               (continuationToken : option string).

Inductive Outcome (A : Type) : Type :=
| Returned (value : A)
| Thrown (e : Exn).

Arguments Returned {A} value.
Arguments Thrown {A} e.

(** ** JavaScript idioms *)

(** [x || 0] on an optional number. *)
Definition orZero (x : option Z) : Z :=
  match x with
  | Some v => v
  | None => 0
  end.

(** Truthiness of an optional string: [undefined] and [""] are falsy. *)
Definition truthyString (s : option string) : bool :=
  match s with
  | Some v => negb (String.eqb v EmptyString)
  | None => false
  end.

(** [!x] on an optional number: [undefined] and [0] are falsy. *)
Definition falsyNumber (x : option Z) : bool :=
  match x with
  | Some v => v =? 0
  | None => true
  end.

(** [l1] is an initial segment of [l2]. *)
Definition prefixOf {A : Type} (l1 l2 : list A) : Prop :=
  exists rest, l2 = l1 ++ rest.

(** ** Effects

    A computation either settles, with an [Outcome] and the effects it
    performed, or never settles ([None]). *)

Section Effects.

Variable E : Type.

Definition Run (A : Type) : Type := option (Outcome A * list E).

Definition ret {A : Type} (a : A) : Run A := Some (Returned a, []).

Definition throw {A : Type} (e : Exn) : Run A := Some (Thrown e, []).

Definition emit (ev : E) : Run unit := Some (Returned tt, [ev]).

(** Put the effects [evs] in front of the effects of [r]. *)
Definition after {A : Type} (evs : list E) (r : Run A) : Run A :=
  match r with
  | Some (o, t) => Some (o, evs ++ t)
  | None => None
  end.

Definition bind {A B : Type} (m : Run A) (k : A -> Run B) : Run B :=
  match m with
  | Some (Returned a, t) => after t (k a)
  | Some (Thrown e, t) => Some (Thrown e, t)
  | None => None
  end.

End Effects.

Arguments ret {E A} a.
Arguments throw {E A} e.
Arguments emit {E} ev.
Arguments after {E A} evs r.
Arguments bind {E A B} m k.

Notation "x <- m ;; k" := (bind m (fun x => k))
  (at level 61, m at next level, right associativity).

(** ** Recursive ACL change *)

Module Acl.

Inductive PathSetAccessControlRecursiveMode : Type :=
| set
| modify
| remove.

Record AccessControlChangeCounters : Type := {
  failedChangesCount : Z;
  changedDirectoriesCount : Z;
  changedFilesCount : Z
}.

Record PathChangeAccessControlRecursiveResponse : Type := {
  counters : AccessControlChangeCounters;
  continuationToken : option string
}.

(** Types and functions of [./transforms] and [./models] that the loop only
    passes along. *)
Class Transforms : Type := {
  PathAccessControlItems : Type;
  toAclString : PathAccessControlItems -> string;
  AclFailedEntry : Type;
  AccessControlChangeError : Type;
  toAccessControlChangeFailureArray :
    option (list AclFailedEntry) -> list AccessControlChangeError
}.

Section Propagator.

Context {transforms : Transforms}.

(** What one successful remote call returns. *)
Record PathSetAccessControlRecursiveResponse : Type := {
  continuation : option string;
  failureCount : option Z;
  directoriesSuccessful : option Z;
  filesSuccessful : option Z;
  failedEntries : option (list AclFailedEntry)
}.

(** The progress event handed to [options.onProgress]. *)
Record AccessControlChanges : Type := {
  batchFailures : list AccessControlChangeError;
  batchCounters : AccessControlChangeCounters;
  aggregateCounters : AccessControlChangeCounters;
  progressContinuationToken : option string
}.

(** [options.onProgress] answers [Some e] when it throws [e]. *)
Record PathChangeAccessControlRecursiveOptions : Type := {
  batchSize : option Z;
  maxBatches : option Z;
  optContinuationToken : option string;
  continueOnFailure : option bool;
  onProgress : option (AccessControlChanges -> option Exn)
}.

(** The arguments of one remote [setAccessControlRecursive] call. *)
Record Request : Type := {
  reqMode : PathSetAccessControlRecursiveMode;
  reqAcl : string;
  maxRecords : option Z;
  reqContinuation : option string;
  forceFlag : option bool
}.

Inductive Event : Type :=
| RemoteCall (r : Request)
| ProgressCall (p : AccessControlChanges).

(** The remote layer: the reply to the call number [k] (from 0) is either
    an exception or a response. *)
Variable pathContext_setAccessControlRecursive :
  nat -> Exn + PathSetAccessControlRecursiveResponse.

Definition AclRun : Type :=
  Run Event PathChangeAccessControlRecursiveResponse.

Variable mode : PathSetAccessControlRecursiveMode.
Variable acl : PathAccessControlItems.
Variable options : PathChangeAccessControlRecursiveOptions.

Definition request (continuationToken : option string) : Request :=
  {| reqMode := mode;
     reqAcl := toAclString acl;
     maxRecords := batchSize options;
     reqContinuation := continuationToken;
     forceFlag := continueOnFailure options |}.

(** The three [+=] of the loop body. *)
Definition addBatch (c : AccessControlChangeCounters)
    (response : PathSetAccessControlRecursiveResponse)
    : AccessControlChangeCounters :=
  {| failedChangesCount :=
       failedChangesCount c + orZero (failureCount response);
     changedDirectoriesCount :=
       changedDirectoriesCount c + orZero (directoriesSuccessful response);
     changedFilesCount :=
       changedFilesCount c + orZero (filesSuccessful response) |}.

(** The update of [result] after a successful call. *)
Definition updateResult (result : PathChangeAccessControlRecursiveResponse)
    (response : PathSetAccessControlRecursiveResponse)
    : PathChangeAccessControlRecursiveResponse :=
  {| counters := addBatch (counters result) response;
     continuationToken := continuation response |}.

Definition batchCountersOf (response : PathSetAccessControlRecursiveResponse)
    : AccessControlChangeCounters :=
  {| failedChangesCount := orZero (failureCount response);
     changedDirectoriesCount := orZero (directoriesSuccessful response);
     changedFilesCount := orZero (filesSuccessful response) |}.

(** The event built when [options.onProgress] is set; [c] is
    [result.counters] after the update.  The event refers to the very object
    [result.counters]; the model records its value at the time of the
    call. *)
Definition progressOf (c : AccessControlChangeCounters)
    (response : PathSetAccessControlRecursiveResponse)
    : AccessControlChanges :=
  {| batchFailures :=
       toAccessControlChangeFailureArray (failedEntries response);
     batchCounters := batchCountersOf response;
     aggregateCounters := c;
     progressContinuationToken := continuation response |}.

Definition reachMaxBatchesOf (batchCounter : nat) : bool :=
  match maxBatches options with
  | None => false
  | Some m => Z.of_nat batchCounter >=? m
  end.

(** The [do ... while] loop.  [fuel] bounds the number of iterations: the
    loop itself has no bound when the service keeps returning tokens and
    [maxBatches] is unset; [None] means that [fuel] iterations were not
    enough. *)
Fixpoint batchLoop (fuel : nat) (continuationToken : option string)
    (batchCounter : nat) (result : PathChangeAccessControlRecursiveResponse)
    : AclRun :=
  match fuel with
  | O => None
  | S fuel' =>
    let call := RemoteCall (request continuationToken) in
    match pathContext_setAccessControlRecursive batchCounter with
    | inl e =>
      Some (Thrown (DataLakeAclChangeFailedError e continuationToken), [call])
    | inr response =>
      let batchCounter' := S batchCounter in
      let continuationToken' := continuation response in
      let result' := updateResult result response in
      let continue (_ : unit) : AclRun :=
        if truthyString continuationToken'
           && negb (reachMaxBatchesOf batchCounter')
        then batchLoop fuel' continuationToken' batchCounter' result'
        else Some (Returned result', []) in
      match onProgress options with
      | Some callback =>
        let progress := progressOf (counters result') response in
        match callback progress with
        | Some e => Some (Thrown e, [call; ProgressCall progress])
        | None => after [call; ProgressCall progress] (continue tt)
        end
      | None => after [call] (continue tt)
      end
    end
  end.

Definition zeroCounters : AccessControlChangeCounters :=
  {| failedChangesCount := 0;
     changedDirectoriesCount := 0;
     changedFilesCount := 0 |}.

(** [result] before the loop. *)
Definition emptyResult : PathChangeAccessControlRecursiveResponse :=
  {| counters := zeroCounters;
     continuationToken := None |}.

Definition tooSmall (x : option Z) : bool :=
  match x with
  | Some v => v <? 1
  | None => false
  end.

Definition setAccessControlRecursiveInternal (fuel : nat) : AclRun :=
  if tooSmall (maxBatches options)
  then Some (Thrown (RangeError MaxBatchesTooSmall), [])
  else if tooSmall (batchSize options)
  then Some (Thrown (RangeError BatchSizeTooSmall), [])
  else batchLoop fuel (optContinuationToken options) O emptyResult.

(** *** Observations on a run *)

Definition requestsOf (t : list Event) : list Request :=
  flat_map (fun ev => match ev with
                      | RemoteCall r => [r]
                      | ProgressCall _ => []
                      end) t.

Definition progressesOf (t : list Event) : list AccessControlChanges :=
  flat_map (fun ev => match ev with
                      | RemoteCall _ => []
                      | ProgressCall p => [p]
                      end) t.

(** The sum of a list of integers, in list order. *)
Definition list_sum_Z (l : list Z) : Z := fold_left Z.add l 0.

(** The sum of the counters of a list of responses, in list order. *)
Definition sumCounters (rs : list PathSetAccessControlRecursiveResponse)
    : AccessControlChangeCounters :=
  fold_left addBatch rs zeroCounters.

Definition countersLe (a b : AccessControlChangeCounters) : Prop :=
  failedChangesCount a <= failedChangesCount b
  /\ changedDirectoriesCount a <= changedDirectoriesCount b
  /\ changedFilesCount a <= changedFilesCount b.

(** The counts of a response are counts: none is negative. *)
Definition nonNegative (response : PathSetAccessControlRecursiveResponse)
    : Prop :=
  0 <= orZero (failureCount response)
  /\ 0 <= orZero (directoriesSuccessful response)
  /\ 0 <= orZero (filesSuccessful response).

(** From the call number [k] on, the remote layer answers with the
    responses [rs], one per call. *)
Fixpoint answers (k : nat) (rs : list PathSetAccessControlRecursiveResponse)
    : Prop :=
  match rs with
  | [] => True
  | x :: rest =>
    pathContext_setAccessControlRecursive k = inr x /\ answers (S k) rest
  end.

(** After the call number [k] the loop goes round again on each of the
    responses [rs]. *)
Fixpoint keepsGoing (k : nat) (rs : list PathSetAccessControlRecursiveResponse)
    : Prop :=
  match rs with
  | [] => True
  | x :: rest =>
    pathContext_setAccessControlRecursive k = inr x
    /\ truthyString (continuation x) = true
    /\ reachMaxBatchesOf (S k) = false
    /\ keepsGoing (S k) rest
  end.

(** The progress callback, when there is one, never throws. *)
Definition quietCallback : Prop :=
  forall callback p, onProgress options = Some callback -> callback p = None.

(** The effects of the iterations that receive the responses [rs], the
    first of them entered with the token [token] and the counters [c]. *)
Fixpoint scriptEvents (token : option string)
    (c : AccessControlChangeCounters)
    (rs : list PathSetAccessControlRecursiveResponse) : list Event :=
  match rs with
  | [] => []
  | x :: rest =>
    let c' := addBatch c x in
    RemoteCall (request token)
    :: match onProgress options with
       | Some _ => [ProgressCall (progressOf c' x)]
       | None => []
       end
    ++ scriptEvents (continuation x) c' rest
  end.

End Propagator.

Section PublicOperations.

Context {transforms : Transforms}.
Variable pathContext_setAccessControlRecursive :
  nat -> Exn + PathSetAccessControlRecursiveResponse.
Variable acl : PathAccessControlItems.
Variable options : PathChangeAccessControlRecursiveOptions.

Definition setAccessControlRecursive (fuel : nat) : AclRun :=
  setAccessControlRecursiveInternal pathContext_setAccessControlRecursive
    set acl options fuel.

Definition updateAccessControlRecursive (fuel : nat) : AclRun :=
  setAccessControlRecursiveInternal pathContext_setAccessControlRecursive
    modify acl options fuel.

Definition removeAccessControlRecursive (fuel : nat) : AclRun :=
  setAccessControlRecursiveInternal pathContext_setAccessControlRecursive
    remove acl options fuel.

End PublicOperations.

(** *** A sample service

    Concrete transforms, options and replies on which the loop can be run. *)

Definition sampleTransforms : Transforms :=
  {| PathAccessControlItems := list string;
     toAclString := String.concat ",";
     AclFailedEntry := string;
     AccessControlChangeError := string;
     toAccessControlChangeFailureArray :=
       fun entries => match entries with
                      | Some l => l
                      | None => []
                      end |}.

Definition sampleAcl : @PathAccessControlItems sampleTransforms :=
  ["user::rwx"%string; "group::r-x"%string].

Definition sampleResponse (token : option string)
    (failures directories files : option Z)
    : @PathSetAccessControlRecursiveResponse sampleTransforms :=
  {| continuation := token;
     failureCount := failures;
     directoriesSuccessful := directories;
     filesSuccessful := files;
     failedEntries := None |}.

Definition responseA := sampleResponse (Some "A"%string) (Some 1) (Some 2) None.

Definition responseB := sampleResponse (Some "B"%string) None (Some 1) (Some 5).

Definition responseEnd := sampleResponse (Some ""%string) (Some 0) None (Some 4).

(** A service that returns the tokens "A" and then "". *)
Definition serviceAThenEnd (k : nat)
    : Exn + @PathSetAccessControlRecursiveResponse sampleTransforms :=
  match k with
  | O => inr responseA
  | S O => inr responseEnd
  | _ => inl (Error "unexpected call")
  end.

(** A service that returns the tokens "A" and "B" and then fails. *)
Definition serviceFailsThird (k : nat)
    : Exn + @PathSetAccessControlRecursiveResponse sampleTransforms :=
  match k with
  | O => inr responseA
  | S O => inr responseB
  | _ => inl (Error "connection reset")
  end.

Definition sampleOptions (batchSize maxBatches : option Z)
    (token : option string)
    : @PathChangeAccessControlRecursiveOptions sampleTransforms :=
  {| batchSize := batchSize;
     maxBatches := maxBatches;
     optContinuationToken := token;
     continueOnFailure := Some true;
     onProgress := Some (fun _ => None) |}.

End Acl.

(** ** Delete *)

Module Delete.

(** [PathDeleteResponse] and the access conditions come from [./models]. *)
Class Models : Type := {
  PathDeleteResponse : Type;
  continuation : PathDeleteResponse -> option string;
  Conditions : Type
}.

Section DeleteLoop.

Context {models : Models}.

(** The arguments of one remote [deleteMethod] call. *)
Record Request : Type := {
  reqContinuation : option string;
  reqRecursive : option bool;
  leaseAccessConditions : Conditions;
  modifiedAccessConditions : Conditions
}.

(** The remote layer: the reply to the call number [k] (from 0). *)
Variable pathContext_deleteMethod : nat -> Exn + PathDeleteResponse.

Variable recursive : option bool.
(** [options.conditions || {}]. *)
Variable conditions : Conditions.

Definition request (continuation : option string) : Request :=
  {| reqContinuation := continuation;
     reqRecursive := recursive;
     leaseAccessConditions := conditions;
     modifiedAccessConditions := conditions |}.

(** [continuation !== undefined && continuation !== ""]. *)
Definition moreToDelete (continuation : option string) : bool :=
  match continuation with
  | None => false
  | Some s => negb (String.eqb s EmptyString)
  end.

(** The [do ... while] loop; [calls] counts the remote calls made so far
    and [fuel] bounds the number of iterations. *)
Fixpoint deleteLoop (fuel : nat) (continuation0 : option string)
    (calls : nat) : Run Request PathDeleteResponse :=
  match fuel with
  | O => None
  | S fuel' =>
    match pathContext_deleteMethod calls with
    | inl e => Some (Thrown e, [request continuation0])
    | inr response =>
      let continuation' := continuation response in
      if moreToDelete continuation'
      then after [request continuation0]
                 (deleteLoop fuel' continuation' (S calls))
      else Some (Returned response, [request continuation0])
    end
  end.

Definition delete (fuel : nat) : Run Request PathDeleteResponse :=
  deleteLoop fuel None O.

(** *** Observations on a run *)

(** From the call number [k] on, the remote layer answers with the
    responses [rs], one per call. *)
Fixpoint answers (k : nat) (rs : list PathDeleteResponse) : Prop :=
  match rs with
  | [] => True
  | x :: rest => pathContext_deleteMethod k = inr x /\ answers (S k) rest
  end.

(** The response carries a token that is not the empty string. *)
Definition hasToken (response : PathDeleteResponse) : Prop :=
  exists s, continuation response = Some s /\ s <> EmptyString.

(** The token of the response is [undefined] or the empty string. *)
Definition lastPage (response : PathDeleteResponse) : Prop :=
  continuation response = None \/ continuation response = Some EmptyString.

End DeleteLoop.

(** *** A sample service: a directory deleted in three calls *)

Definition sampleModels : Models :=
  {| PathDeleteResponse := option string * string;
     continuation := fst;
     Conditions := unit |}.

Definition serviceThreePages (k : nat)
    : Exn + @PathDeleteResponse sampleModels :=
  match k with
  | O => inr (Some "page-2"%string, "request-1"%string)
  | S O => inr (Some "page-3"%string, "request-2"%string)
  | S (S O) => inr (None, "request-3"%string)
  | _ => inl (Error "unexpected call")
  end.

End Delete.

(** ** Seekable upload *)

Module Upload.

(** The limits of [./utils/constants] and the types of [./models]. *)
Class Constants : Type := {
  BLOCK_BLOB_MAX_BLOCKS : Z;
  DEFAULT_HIGH_LEVEL_CONCURRENCY : Z;
  FILE_MAX_SINGLE_UPLOAD_THRESHOLD : Z;
  FILE_MAX_SIZE_BYTES : Z;
  FILE_UPLOAD_DEFAULT_CHUNK_SIZE : Z;
  FILE_UPLOAD_MAX_CHUNK_SIZE : Z;
  HttpRequestBody : Type;
  FileUploadResponse : Type
}.

(** [Math.ceil(a / b)] for a positive [b]. *)
Definition ceilDiv (a b : Z) : Z := - ((- a) / b).

(** [Math.floor(a / b)] for a positive [b]. *)
Definition floorDiv (a b : Z) : Z := a / b.

(** Remove the element at position [j]. *)
Fixpoint removeAt {A : Type} (j : nat) (l : list A) : list A :=
  match l, j with
  | [], _ => []
  | _ :: rest, O => rest
  | x :: rest, S j' => x :: removeAt j' rest
  end.

Section Engine.

Context {constants : Constants}.

(** The numeric options and the progress callback of
    [FileParallelUploadOptions]; [onProgress] answers [Some e] when it
    throws [e].  The other options (abort signal, metadata, permissions,
    umask, conditions, HTTP headers, close) are handed to the remote calls
    unchanged. *)
Record FileParallelUploadOptions : Type := {
  chunkSize : option Z;
  maxConcurrency : option Z;
  singleUploadThreshold : option Z;
  onProgress : option (Z -> option Exn)
}.

(** The calls on the remote layer: [create], and [appendData] and
    [flushData] behind [append] and [flush]. *)
Inductive RemoteCall : Type :=
| Create
| AppendData (body : HttpRequestBody) (position contentLength : Z)
| FlushData (position : Z).

Inductive Event : Type :=
| Issued (c : RemoteCall)                       (* the request leaves *)
| AppendCompleted (position contentLength : Z)  (* an append resolved *)
| NewBatch (concurrency : Z)                    (* new Batch(n) *)
| Progress (loadedBytes : Z).                   (* options.onProgress *)

Definition UploadRun (A : Type) : Type := Run Event A.

(** The remote layer: the reply to each call. *)
Variable remote : RemoteCall -> Exn + FileUploadResponse.

Variable bodyFactory : Z -> Z -> HttpRequestBody.

(** Issue a remote call and wait for its reply. *)
Definition call (c : RemoteCall) : UploadRun FileUploadResponse :=
  match remote c with
  | inl e => Some (Thrown e, [Issued c])
  | inr r => Some (Returned r, [Issued c])
  end.

Definition create : UploadRun FileUploadResponse := call Create.

Definition append (body : HttpRequestBody) (offset length : Z)
    : UploadRun unit :=
  _ <- call (AppendData body offset length) ;;
  emit (AppendCompleted offset length).

Definition flush (position : Z) : UploadRun FileUploadResponse :=
  call (FlushData position).

(** *** The worker pool *)

(** The operation queued at iteration [i] of the [for] loop: it appends
    the bytes from [start], [contentLength] of them. *)
Record Operation : Type := {
  start : Z;
  contentLength : Z
}.

(** What an operation does up to its [await]: the append request leaves. *)
Definition begin (op : Operation) : Event :=
  Issued (AppendData (bodyFactory (start op) (contentLength op))
                     (start op) (contentLength op)).

(** What an operation does once the append has settled: on success it adds
    its length to [transferProgress] and reports the new total. *)
Definition resume (options : FileParallelUploadOptions) (op : Operation)
    (transferProgress : Z) : UploadRun Z :=
  match remote (AppendData (bodyFactory (start op) (contentLength op))
                           (start op) (contentLength op)) with
  | inl e => Some (Thrown e, [])
  | inr _ =>
    let transferProgress' := transferProgress + contentLength op in
    let completed := AppendCompleted (start op) (contentLength op) in
    match onProgress options with
    | Some callback =>
      match callback transferProgress' with
      | Some e => Some (Thrown e, [completed; Progress transferProgress'])
      | None =>
        Some (Returned transferProgress',
              [completed; Progress transferProgress'])
      end
    | None => Some (Returned transferProgress', [completed])
    end
  end.

(** Modelled from the spec: the class [Batch] of [./utils/Batch], the
    bounded worker pool.  [addOperation] queues a task before execution
    starts; [do] begins dispatch and resolves when every queued task has
    completed or any task has failed; tasks start in FIFO order with at
    most [concurrency] of them in flight; the completion order is
    unspecified.  Here [pending] is the queue, [actives] the tasks in
    flight, and [choose] names the position in [actives] of the task that
    settles next, so that every completion order is covered. *)
Fixpoint dispatch (concurrency : Z) (pending actives : list Operation)
    : list Operation * list Operation * list Event :=
  match pending with
  | [] => ([], actives, [])
  | op :: rest =>
    if Z.of_nat (List.length actives) <? concurrency
    then
      let '(pending', actives', evs) :=
        dispatch concurrency rest (actives ++ [op]) in
      (pending', actives', begin op :: evs)
    else (pending, actives, [])
  end.

(** Modelled from the spec: [Batch.do], see [dispatch].  After a failure
    no task starts and the results of the tasks still in flight are
    discarded.  [None]: the pool never resolves (nothing in flight and
    nothing can start), or [fuel] completions were not enough. *)
Fixpoint batchDo (options : FileParallelUploadOptions)
    (choose : list Operation -> nat) (concurrency : Z) (fuel : nat)
    (pending actives : list Operation) (transferProgress : Z)
    : UploadRun Z :=
  let '(pending', actives', started) :=
    dispatch concurrency pending actives in
  match actives' with
  | [] =>
    match pending' with
    | [] => Some (Returned transferProgress, started)
    | _ :: _ => None
    end
  | first :: _ =>
    match fuel with
    | O => None
    | S fuel' =>
      let j := (choose actives' mod List.length actives')%nat in
      let op := nth j actives' first in
      after started
        (transferProgress' <- resume options op transferProgress ;;
         batchDo options choose concurrency fuel' pending'
                 (removeAt j actives') transferProgress')
    end
  end.

(** *** The upload *)

Definition resolveChunkSize (size : Z) (options : FileParallelUploadOptions)
    : Z :=
  if falsyNumber (chunkSize options)
  then
    let derived := ceilDiv size BLOCK_BLOB_MAX_BLOCKS in
    if derived <? FILE_UPLOAD_DEFAULT_CHUNK_SIZE
    then FILE_UPLOAD_DEFAULT_CHUNK_SIZE
    else derived
  else orZero (chunkSize options).

Definition resolveMaxConcurrency (options : FileParallelUploadOptions) : Z :=
  if falsyNumber (maxConcurrency options)
  then DEFAULT_HIGH_LEVEL_CONCURRENCY
  else orZero (maxConcurrency options).

Definition resolveSingleUploadThreshold
    (options : FileParallelUploadOptions) : Z :=
  if falsyNumber (singleUploadThreshold options)
  then FILE_MAX_SINGLE_UPLOAD_THRESHOLD
  else orZero (singleUploadThreshold options).

Definition numBlocksOf (size chunkSize : Z) : Z :=
  floorDiv (size - 1) chunkSize + 1.

(** The operation added at iteration [i]. *)
Definition operationAt (size chunkSize numBlocks : Z) (i : Z) : Operation :=
  let start := chunkSize * i in
  let end_ := if i =? numBlocks - 1 then size else start + chunkSize in
  {| start := start; contentLength := end_ - start |}.

(** The queue after the [for] loop. *)
Definition operationsOf (size chunkSize numBlocks : Z) : list Operation :=
  map (fun i => operationAt size chunkSize numBlocks (Z.of_nat i))
      (seq 0 (Z.to_nat numBlocks)).

Definition uploadSeekableInternal (choose : list Operation -> nat)
    (size : Z) (options : FileParallelUploadOptions)
    : UploadRun FileUploadResponse :=
  if size >? FILE_MAX_SIZE_BYTES
  then throw (RangeError SizeTooBig)
  else
    createRes <- create ;;
    if size =? 0
    then ret createRes
    else
      let chunkSize := resolveChunkSize size options in
      if (chunkSize <? 1) || (chunkSize >? FILE_UPLOAD_MAX_CHUNK_SIZE)
      then throw (RangeError ChunkSizeOutOfRange)
      else
        let maxConcurrency := resolveMaxConcurrency options in
        if maxConcurrency <=? 0
        then throw (RangeError MaxConcurrencyNotPositive)
        else
          let singleUploadThreshold :=
            resolveSingleUploadThreshold options in
          if (singleUploadThreshold <? 1)
             || (singleUploadThreshold >? FILE_MAX_SINGLE_UPLOAD_THRESHOLD)
          then throw (RangeError SingleUploadThresholdOutOfRange)
          else if size <=? singleUploadThreshold
          then
            _ <- append (bodyFactory 0 size) 0 size ;;
            flush size
          else
            let numBlocks := numBlocksOf size chunkSize in
            if numBlocks >? BLOCK_BLOB_MAX_BLOCKS
            then throw (RangeError TooManyBlocks)
            else
              _ <- emit (NewBatch maxConcurrency) ;;
              let operations := operationsOf size chunkSize numBlocks in
              _ <- batchDo options choose maxConcurrency
                           (List.length operations) operations [] 0 ;;
              flush size.

(** *** Observations on a run *)

(** The remote calls of a run, in the order the requests left. *)
Definition remoteCallsOf (t : list Event) : list RemoteCall :=
  flat_map (fun ev => match ev with
                      | Issued c => [c]
                      | _ => []
                      end) t.

(** The position and length of each append request of a run. *)
Definition appendsOf (t : list Event) : list (Z * Z) :=
  flat_map (fun ev => match ev with
                      | Issued (AppendData _ position length) =>
                        [(position, length)]
                      | _ => []
                      end) t.

(** The worker pools constructed during a run. *)
Definition poolsOf (t : list Event) : list Z :=
  flat_map (fun ev => match ev with
                      | NewBatch n => [n]
                      | _ => []
                      end) t.

(** What an effect adds to the number of append calls in flight. *)
Definition weight (ev : Event) : Z :=
  match ev with
  | Issued (AppendData _ _ _) => 1
  | AppendCompleted _ _ => -1
  | _ => 0
  end.

(** The number of append calls in flight after the effects [t]. *)
Definition inFlight (t : list Event) : Z :=
  fold_right (fun ev n => weight ev + n) 0 t.

(** Starting with [n] calls in flight, the number in flight stays at most
    [bound] all along the effects [t]. *)
Fixpoint bounded (n bound : Z) (t : list Event) : Prop :=
  match t with
  | [] => n <= bound
  | ev :: rest => n <= bound /\ bounded (n + weight ev) bound rest
  end.

(** The chunks follow one another from [offset] on, without gap or
    overlap. *)
Fixpoint contiguousFrom (offset : Z) (chunks : list (Z * Z)) : Prop :=
  match chunks with
  | [] => True
  | (position, length) :: rest =>
    position = offset /\ contiguousFrom (position + length) rest
  end.

Definition totalLength (chunks : list (Z * Z)) : Z :=
  fold_right (fun chunk n => snd chunk + n) 0 chunks.

Definition chunkOf (op : Operation) : Z * Z := (start op, contentLength op).

Definition appendCallOf (op : Operation) : RemoteCall :=
  AppendData (bodyFactory (start op) (contentLength op))
             (start op) (contentLength op).

(** The options pass the three range checks on their resolved values. *)
Definition validOptions (size : Z) (options : FileParallelUploadOptions)
    : Prop :=
  1 <= resolveChunkSize size options <= FILE_UPLOAD_MAX_CHUNK_SIZE
  /\ 0 < resolveMaxConcurrency options
  /\ 1 <= resolveSingleUploadThreshold options
       <= FILE_MAX_SINGLE_UPLOAD_THRESHOLD.

(** Every remote call succeeds. *)
Definition accepts : Prop := forall c, exists r, remote c = inr r.

(** The progress callback, when there is one, never throws. *)
Definition quietCallback (options : FileParallelUploadOptions) : Prop :=
  forall callback n, onProgress options = Some callback -> callback n = None.

End Engine.

(** *** A sample service *)

Definition sampleConstants : Constants :=
  {| BLOCK_BLOB_MAX_BLOCKS := 50000;
     DEFAULT_HIGH_LEVEL_CONCURRENCY := 5;
     FILE_MAX_SINGLE_UPLOAD_THRESHOLD := 100 * 1024 * 1024;
     FILE_MAX_SIZE_BYTES := 50000 * (100 * 1024 * 1024);
     FILE_UPLOAD_DEFAULT_CHUNK_SIZE := 8 * 1024 * 1024;
     FILE_UPLOAD_MAX_CHUNK_SIZE := 100 * 1024 * 1024;
     HttpRequestBody := Z * Z;
     FileUploadResponse := string |}.

(** A remote layer that accepts every call. *)
Definition sampleRemote (c : @RemoteCall sampleConstants)
    : Exn + @FileUploadResponse sampleConstants :=
  match c with
  | Create => inr "created"%string
  | AppendData _ _ _ => inr "appended"%string
  | FlushData _ => inr "flushed"%string
  end.

(** The body for a range of the payload is the range itself. *)
Definition sampleBodyFactory (offset count : Z)
    : @HttpRequestBody sampleConstants := (offset, count).

Definition sampleOptions (chunkSize maxConcurrency singleUploadThreshold
    : option Z) : FileParallelUploadOptions :=
  {| chunkSize := chunkSize;
     maxConcurrency := maxConcurrency;
     singleUploadThreshold := singleUploadThreshold;
     onProgress := Some (fun _ => None) |}.

(** Of the calls in flight, the one issued last settles first. *)
Definition newestFirst (actives : list Operation) : nat :=
  (List.length actives - 1)%nat.

End Upload.

(** ** Recursive ACL change: resuming a run *)

Module Resumption.

Import Acl.

Section Options.

Context {transforms : Transforms}.

(** [{ ...options, maxBatches, continuationToken }]: the options of a later
    call that takes up where an earlier one stopped. *)
Definition withBatchesAndToken
    (options : PathChangeAccessControlRecursiveOptions)
    (batches : option Z) (token : option string)
    : PathChangeAccessControlRecursiveOptions :=
  {| batchSize := batchSize options;
     maxBatches := batches;
     optContinuationToken := token;
     continueOnFailure := continueOnFailure options;
     onProgress := onProgress options |}.

Definition addCounters (a b : AccessControlChangeCounters)
    : AccessControlChangeCounters :=
  {| failedChangesCount := failedChangesCount a + failedChangesCount b;
     changedDirectoriesCount :=
       changedDirectoriesCount a + changedDirectoriesCount b;
     changedFilesCount := changedFilesCount a + changedFilesCount b |}.

(** The service as it answers once [n] calls have been made. *)
Definition afterCalls (n : nat)
    (service : nat -> Exn + PathSetAccessControlRecursiveResponse)
    (k : nat) : Exn + PathSetAccessControlRecursiveResponse :=
  service (n + k)%nat.

(** [callback] returns normally on the progress events of the batches [rs],
    the first of them entered with the counters [c]. *)
Fixpoint quietOn (callback : AccessControlChanges -> option Exn)
    (c : AccessControlChangeCounters)
    (rs : list PathSetAccessControlRecursiveResponse) : Prop :=
  match rs with
  | [] => True
  | x :: rest =>
    callback (progressOf (addBatch c x) x) = None
    /\ quietOn callback (addBatch c x) rest
  end.

End Options.

(** A callback that throws from the second batch on: it accepts the event
    only while no directory but the first two has been changed. *)
Definition throwsAfterFirst
    (p : @AccessControlChanges sampleTransforms) : option Exn :=
  if changedDirectoriesCount (aggregateCounters p) <=? 2
  then None
  else Some (Error "stop").

(** A service that returns the tokens "A", "B" and then "". *)
Definition serviceThreeBatches (k : nat)
    : Exn + @PathSetAccessControlRecursiveResponse sampleTransforms :=
  match k with
  | O => inr responseA
  | S O => inr responseB
  | S (S O) => inr responseEnd
  | _ => inl (Error "unexpected call")
  end.

End Resumption.

(** ** Errors raised by the client itself

    Some operations check their arguments and throw before they do anything
    else: [Refused] is such a rejection; [Passed] is what the operation does
    once its arguments are accepted. *)

Inductive ClientError : Type :=
| TypeError (message : string)
| RangeErrorText (message : string)
| ErrorText (message : string).

Inductive Checked (A : Type) : Type :=
| Refused (e : ClientError)
| Passed (a : A).

Arguments Refused {A} e.
Arguments Passed {A} a.

(** The result of an [...IfExists] or [...IfNotExists] operation:
    [{ succeeded: true, ...res }], or
    [{ succeeded: false, ...e.response?.parsedHeaders, _response: e.response }]
    built from the exception [e]. *)
Inductive IfExistsResponse (A : Type) : Type :=
| Succeeded (res : A)
| NotSucceeded (e : Exn).

Arguments Succeeded {A} res.
Arguments NotSucceeded {A} e.

(** [e.details?.errorCode === code]. *)
Definition hasErrorCode (errorCode : Exn -> option string) (code : string)
    (e : Exn) : bool :=
  match errorCode e with
  | Some c => String.eqb c code
  | None => false
  end.

(** ** Create *)

Module Create.

Inductive PathResourceTypeModel : Type :=
| directory
| file.

(** What [./models], [./transforms], [./utils/constants] and the REST error
    class provide. *)
Class PathModels : Type := {
  Metadata : Type;
  Properties : Type;
  toProperties : option Metadata -> Properties;
  Date : Type;
  ETagAny : string;
  PathCreateResponse : Type;
  OtherOptions : Type;
  errorCode : Exn -> option string
}.

Section Clients.

Context {models : PathModels}.

Record Conditions : Type := {
  leaseId : option string;
  ifMatch : option string;
  ifNoneMatch : option string;
  ifModifiedSince : option Date;
  ifUnmodifiedSince : option Date
}.

(** [{}]. *)
Definition noConditions : Conditions :=
  {| leaseId := None;
     ifMatch := None;
     ifNoneMatch := None;
     ifModifiedSince := None;
     ifUnmodifiedSince := None |}.

(** [conditions] and [metadata], and in [others] the options that are only
    handed on (permissions, umask, HTTP headers, abort signal). *)
Record PathCreateOptions : Type := {
  conditions : option Conditions;
  metadata : option Metadata;
  others : option OtherOptions
}.

(** [{}], the default of an omitted [options]. *)
Definition noOptions : PathCreateOptions :=
  {| conditions := None; metadata := None; others := None |}.

(** The arguments of one remote [pathContext.create] call. *)
Record CreateRequest : Type := {
  resource : PathResourceTypeModel;
  leaseAccessConditions : Conditions;
  modifiedAccessConditions : Conditions;
  properties : Properties;
  handedOn : option OtherOptions
}.

(** The remote layer. *)
Variable pathContext_create : CreateRequest -> Exn + PathCreateResponse.

Definition CreateRun (A : Type) : Type := Run CreateRequest A.

(** [options.conditions || {}]. *)
Definition conditionsOrEmpty (options : PathCreateOptions) : Conditions :=
  match conditions options with
  | Some c => c
  | None => noConditions
  end.

(** [DataLakePathClient.create]. *)
Definition pathCreate (resourceType : PathResourceTypeModel)
    (options : PathCreateOptions) : CreateRun PathCreateResponse :=
  let conditions := conditionsOrEmpty options in
  let request :=
    {| resource := resourceType;
       leaseAccessConditions := conditions;
       modifiedAccessConditions := conditions;
       properties := toProperties (metadata options);
       handedOn := others options |} in
  match pathContext_create request with
  | inl e => Some (Thrown e, [request])
  | inr res => Some (Returned res, [request])
  end.

(** [DataLakePathClient.createIfNotExists]; [create] is the method
    [this.create] of the client it is called on. *)
Definition pathCreateIfNotExists
    (create : PathResourceTypeModel -> PathCreateOptions ->
              Checked (CreateRun PathCreateResponse))
    (resourceType : PathResourceTypeModel) (options : PathCreateOptions)
    : Checked (CreateRun (IfExistsResponse PathCreateResponse)) :=
  let conditions :=
    {| leaseId := None;
       ifMatch := None;
       ifNoneMatch := Some ETagAny;
       ifModifiedSince := None;
       ifUnmodifiedSince := None |} in
  match create resourceType
          {| conditions := Some conditions;
             metadata := metadata options;
             others := others options |} with
  | Refused e => Refused e
  | Passed None => Passed None
  | Passed (Some (Returned res, t)) => Passed (Some (Returned (Succeeded res), t))
  | Passed (Some (Thrown e, t)) =>
    if hasErrorCode errorCode "PathAlreadyExists" e
    then Passed (Some (Returned (NotSucceeded e), t))
    else Passed (Some (Thrown e, t))
  end.

(** The first argument of the overloaded [create] and [createIfNotExists]
    of the directory and file clients: a resource type, an options object,
    or nothing. *)
Inductive ResourceTypeOrOptions : Type :=
| IsResourceType (resourceType : PathResourceTypeModel)
| IsOptions (options : PathCreateOptions)
| IsUndefined.

(** [resourceTypeOrOptions || {}], for an argument that is no resource
    type. *)
Definition optionsOrEmpty (arg : ResourceTypeOrOptions) : PathCreateOptions :=
  match arg with
  | IsOptions o => o
  | _ => noOptions
  end.

(** [DataLakeDirectoryClient.create]. *)
Definition directoryCreate (resourceTypeOrOptions : ResourceTypeOrOptions)
    (options : PathCreateOptions)
    : Checked (CreateRun PathCreateResponse) :=
  match resourceTypeOrOptions with
  | IsResourceType directory => Passed (pathCreate directory options)
  | IsResourceType file =>
    Refused (TypeError
      "DataLakeDirectoryClient:create() resourceType cannot be file. Refer to DataLakeFileClient for file creation.")
  | _ =>
    let options := optionsOrEmpty resourceTypeOrOptions in
    let options :=
      {| conditions := Some (conditionsOrEmpty options);
         metadata := metadata options;
         others := others options |} in
    Passed (pathCreate directory options)
  end.

(** [DataLakeDirectoryClient.createIfNotExists]. *)
Definition directoryCreateIfNotExists
    (resourceTypeOrOptions : ResourceTypeOrOptions)
    (options : PathCreateOptions)
    : Checked (CreateRun (IfExistsResponse PathCreateResponse)) :=
  match resourceTypeOrOptions with
  | IsResourceType file =>
    Refused (TypeError
      "DataLakeDirectoryClient:createIfNotExists() resourceType cannot be file. Refer to DataLakeFileClient for file creation.")
  | IsResourceType directory =>
    pathCreateIfNotExists
      (fun r o => directoryCreate (IsResourceType r) o) directory options
  | _ =>
    pathCreateIfNotExists
      (fun r o => directoryCreate (IsResourceType r) o) directory
      (optionsOrEmpty resourceTypeOrOptions)
  end.

(** [DataLakeFileClient.create]. *)
Definition fileCreate (resourceTypeOrOptions : ResourceTypeOrOptions)
    (options : PathCreateOptions)
    : Checked (CreateRun PathCreateResponse) :=
  match resourceTypeOrOptions with
  | IsResourceType file => Passed (pathCreate file options)
  | IsResourceType directory =>
    Refused (TypeError
      "DataLakeFileClient:create() resourceType cannot be directory. Refer to DataLakeDirectoryClient for directory creation.")
  | _ =>
    let options := optionsOrEmpty resourceTypeOrOptions in
    let options :=
      {| conditions := Some (conditionsOrEmpty options);
         metadata := metadata options;
         others := others options |} in
    Passed (pathCreate file options)
  end.

(** [DataLakeFileClient.createIfNotExists]. *)
Definition fileCreateIfNotExists
    (resourceTypeOrOptions : ResourceTypeOrOptions)
    (options : PathCreateOptions)
    : Checked (CreateRun (IfExistsResponse PathCreateResponse)) :=
  match resourceTypeOrOptions with
  | IsResourceType directory =>
    Refused (TypeError
      "DataLakeFileClient:createIfNotExists() resourceType cannot be directory. Refer to DataLakeDirectoryClient for directory creation.")
  | IsResourceType file =>
    pathCreateIfNotExists
      (fun r o => fileCreate (IsResourceType r) o) file options
  | _ =>
    pathCreateIfNotExists
      (fun r o => fileCreate (IsResourceType r) o) file
      (optionsOrEmpty resourceTypeOrOptions)
  end.

(** *** Observations *)

(** The requests of a checked run; none when it was refused or never
    settles. *)
Definition requestsMade {A : Type} (r : Checked (CreateRun A))
    : list CreateRequest :=
  match r with
  | Passed (Some (_, t)) => t
  | _ => []
  end.

(** The request neither overwrites nor depends on a lease: its two sets of
    conditions are [{ ifNoneMatch: ETagAny }]. *)
Definition onlyIfAbsent (request : CreateRequest) : Prop :=
  leaseAccessConditions request =
  {| leaseId := None;
     ifMatch := None;
     ifNoneMatch := Some ETagAny;
     ifModifiedSince := None;
     ifUnmodifiedSince := None |}
  /\ modifiedAccessConditions request = leaseAccessConditions request.

(** What [createIfNotExists] comes to: one request, sent only if the path
    is absent, and the outcome of that request with "PathAlreadyExists"
    turned into a result. *)
Definition asksOnlyIfAbsent (kind : PathResourceTypeModel)
    (options : PathCreateOptions)
    (r : Checked (CreateRun (IfExistsResponse PathCreateResponse))) : Prop :=
  exists q,
    onlyIfAbsent q
    /\ resource q = kind
    /\ properties q = toProperties (metadata options)
    /\ handedOn q = others options
    /\ r = Passed (Some (match pathContext_create q with
                         | inr res => Returned (Succeeded res)
                         | inl e =>
                           if hasErrorCode errorCode "PathAlreadyExists" e
                           then Returned (NotSucceeded e)
                           else Thrown e
                         end, [q])).

End Clients.

(** *** A sample service: the path exists already *)

Definition sampleModels : PathModels :=
  {| Metadata := list (string * string);
     Properties := string;
     toProperties := fun m => match m with
                              | Some _ => "properties"%string
                              | None => EmptyString
                              end;
     Date := Z;
     ETagAny := "*";
     PathCreateResponse := string;
     OtherOptions := string;
     errorCode := fun e => match e with
                           | Error message => Some message
                           | _ => None
                           end |}.

Definition pathExists (request : @CreateRequest sampleModels)
    : Exn + @PathCreateResponse sampleModels :=
  match ifNoneMatch (modifiedAccessConditions request) with
  | Some _ => inl (Error "PathAlreadyExists")
  | None => inr "overwritten"%string
  end.

Definition leasedOptions : @PathCreateOptions sampleModels :=
  {| conditions := Some {| leaseId := Some "lease-1"%string;
                           ifMatch := Some "etag-7"%string;
                           ifNoneMatch := None;
                           ifModifiedSince := None;
                           ifUnmodifiedSince := None |};
     metadata := None;
     others := Some ("umask=0027"%string : @OtherOptions sampleModels) |}.

End Create.

(** ** Delete if exists *)

Module DeleteIfExists.

Import Delete.

Section Operation.

Context {models : Models}.

(** [e.details?.errorCode] of the REST error class. *)
Variable errorCode : Exn -> option string.

Variable pathContext_deleteMethod : nat -> Exn + PathDeleteResponse.
Variable recursive : option bool.
Variable conditions : Conditions.

(** [DataLakePathClient.deleteIfExists]: [delete] with the same arguments,
    and the exception "PathNotFound" turned into a result. *)
Definition deleteIfExists (fuel : nat)
    : Run Request (IfExistsResponse PathDeleteResponse) :=
  match delete pathContext_deleteMethod recursive conditions fuel with
  | None => None
  | Some (Returned res, t) => Some (Returned (Succeeded res), t)
  | Some (Thrown e, t) =>
    if hasErrorCode errorCode "PathNotFound" e
    then Some (Returned (NotSucceeded e), t)
    else Some (Thrown e, t)
  end.

End Operation.

(** The error code of the sample service is the message of the error. *)
Definition sampleErrorCode (e : Exn) : option string :=
  match e with
  | Error message => Some message
  | _ => None
  end.

(** A directory whose first page is deleted; the second call finds nothing
    left. *)
Definition serviceGoneOnSecondPage (k : nat)
    : Exn + @PathDeleteResponse sampleModels :=
  match k with
  | O => inr (Some "page-2"%string, "request-1"%string)
  | _ => inl (Error "PathNotFound")
  end.

End DeleteIfExists.

(** ** Move *)

Module Move.

Import Create.

(** [s.split(sep)] for a separator of one character. *)
Fixpoint split (sep : ascii) (s : string) : list string :=
  match s with
  | EmptyString => [EmptyString]
  | String a rest =>
    if Ascii.eqb a sep
    then EmptyString :: split sep rest
    else match split sep rest with
         | piece :: pieces => String a piece :: pieces
         | [] => [String a EmptyString]
         end
  end.

(** The number of occurrences of a character. *)
Fixpoint occurrences (c : ascii) (s : string) : nat :=
  match s with
  | EmptyString => O
  | String a rest =>
    if Ascii.eqb a c then S (occurrences c rest) else occurrences c rest
  end.

Definition questionMark : ascii := "?"%char.

Section Operation.

Context {models : PathModels}.

(** The URL helpers of [./utils/utils.common]. *)
Variable getURLPathAndQuery : string -> option string.
Variable setURLPath : string -> string -> string.
Variable setURLQueries : string -> string -> string.

(** The client: its URL on the dfs endpoint and its file system. *)
Variable dfsEndpointUrl : string.
Variable fileSystemName : string.

Record PathMoveOptions : Type := {
  conditions : option Conditions;
  destinationConditions : option Conditions
}.

Record SourceModifiedAccessConditions : Type := {
  sourceIfMatch : option string;
  sourceIfNoneMatch : option string;
  sourceIfModifiedSince : option Date;
  sourceIfUnmodifiedSince : option Date
}.

(** The arguments of the remote [create] call, made on a client for
    [destinationUrl]. *)
Record RenameRequest : Type := {
  destinationUrl : string;
  mode : string;
  renameSource : option string;
  sourceLeaseId : option string;
  leaseAccessConditions : Conditions;
  sourceModifiedAccessConditions : SourceModifiedAccessConditions;
  modifiedAccessConditions : Conditions
}.

Variable pathContext_create : RenameRequest -> Exn + PathCreateResponse.

(** The second argument of the overloaded [move]: the destination path, the
    options, or nothing. *)
Inductive PathOrOptions : Type :=
| IsPath (destinationPath : string)
| IsMoveOptions (options : PathMoveOptions)
| NoSecondArgument.

Definition orNoConditions (c : option Conditions) : Conditions :=
  match c with
  | Some c => c
  | None => noConditions
  end.

(** [`/${destinationFileSystem}/${path}`]. *)
Definition renameDestinationOf (destinationFileSystem path : string)
    : string :=
  ("/" ++ destinationFileSystem ++ "/" ++ path)%string.

(** The file system and the path the arguments name. *)
Definition destinationOf (destinationPathOrFileSystem : string)
    (destinationPathOrOptions : PathOrOptions) : string * string :=
  match destinationPathOrOptions with
  | IsPath destinationPath => (destinationPathOrFileSystem, destinationPath)
  | _ => (fileSystemName, destinationPathOrFileSystem)
  end.

(** The options after the overload is resolved and the two sets of
    conditions are defaulted. *)
Definition optionsOf (destinationPathOrOptions : PathOrOptions)
    (options : option PathMoveOptions) : Conditions * Conditions :=
  let chosen :=
    match destinationPathOrOptions with
    | IsPath _ => options
    | IsMoveOptions o => Some o
    | NoSecondArgument => None
    end in
  match chosen with
  | Some o =>
    (orNoConditions (conditions o), orNoConditions (destinationConditions o))
  | None => (noConditions, noConditions)
  end.

(** [DataLakePathClient.move]. *)
Definition move (destinationPathOrFileSystem : string)
    (destinationPathOrOptions : PathOrOptions)
    (options : option PathMoveOptions)
    : Checked (Run RenameRequest PathCreateResponse) :=
  let '(destinationFileSystem, destinationPath) :=
    destinationOf destinationPathOrFileSystem destinationPathOrOptions in
  let '(conditions, destinationConditions) :=
    optionsOf destinationPathOrOptions options in
  let renameSource := getURLPathAndQuery dfsEndpointUrl in
  let pieces := split questionMark destinationPath in
  let destination : option string :=
    match pieces with
    | [path; query] =>
      let renameDestination :=
        renameDestinationOf destinationFileSystem path in
      Some (setURLQueries (setURLPath dfsEndpointUrl renameDestination) query)
    | [_] =>
      let renameDestination :=
        renameDestinationOf destinationFileSystem destinationPath in
      Some (setURLPath dfsEndpointUrl renameDestination)
    | _ => None
    end in
  match destination with
  | None =>
    Refused (RangeErrorText
      "Destination path should not contain more than one query string")
  | Some destinationUrl =>
    let request :=
      {| destinationUrl := destinationUrl;
         mode := "legacy";
         renameSource := renameSource;
         sourceLeaseId := leaseId conditions;
         leaseAccessConditions := destinationConditions;
         sourceModifiedAccessConditions :=
           {| sourceIfMatch := ifMatch conditions;
              sourceIfNoneMatch := ifNoneMatch conditions;
              sourceIfModifiedSince := ifModifiedSince conditions;
              sourceIfUnmodifiedSince := ifUnmodifiedSince conditions |};
         modifiedAccessConditions := destinationConditions |} in
    match pathContext_create request with
    | inl e => Passed (Some (Thrown e, [request]))
    | inr res => Passed (Some (Returned res, [request]))
    end
  end.

(** The URLs of the requests of a move. *)
Definition destinationsOf
    (r : Checked (Run RenameRequest PathCreateResponse)) : list string :=
  match r with
  | Passed (Some (_, t)) => map destinationUrl t
  | _ => []
  end.

End Operation.

(** *** A sample client *)

(** URL helpers that only record what they are asked. *)
Definition samplePathAndQuery (url : string) : option string := Some url.

Definition sampleSetPath (url path : string) : string :=
  (url ++ "[path:" ++ path ++ "]")%string.

Definition sampleSetQueries (url query : string) : string :=
  (url ++ "[query:" ++ query ++ "]")%string.

Definition sampleRename (request : @RenameRequest sampleModels)
    : Exn + @PathCreateResponse sampleModels :=
  inr "moved"%string.

End Move.

(** ** Expiry *)

Module Expiry.

Inductive FileExpiryMode : Type :=
| NeverExpire
| RelativeToNow
| RelativeToCreation
| Absolute.

(** A JavaScript [Date]: its time value in milliseconds, or [None] for an
    invalid date, whose time value is [NaN]. *)
Definition Date : Type := option Z.

(** [a.getTime() > b.getTime()]; a comparison with [NaN] is false. *)
Definition laterThan (a b : Date) : bool :=
  match a, b with
  | Some x, Some y => x >? y
  | _, _ => false
  end.

Section Operation.

(** [Number.prototype.toString] and [Date.prototype.toUTCString]. *)
Variable numberToString : Z -> string.
Variable toUTCString : Date -> string.

Variable FileSetExpiryResponse : Type.

Record FileSetExpiryOptions : Type := {
  timeToExpireInMs : option Z;
  expiresOn : option Date
}.

(** The arguments of the remote [setExpiry] call. *)
Record SetExpiryRequest : Type := {
  requestMode : FileExpiryMode;
  requestExpiresOn : option string
}.

Variable pathContext_setExpiry : SetExpiryRequest -> Exn + FileSetExpiryResponse.

(** The mode as the messages print it. *)
Definition modeName (mode : FileExpiryMode) : string :=
  match mode with
  | NeverExpire => "NeverExpire"
  | RelativeToNow => "RelativeToNow"
  | RelativeToCreation => "RelativeToCreation"
  | Absolute => "Absolute"
  end.

(** The first two blocks of [setExpiry]: the value of [expiresOn] to send,
    or the error thrown.  [now] is what [new Date()] returns.  On an
    integer [Math.round] changes nothing. *)
Definition expiresOnFor (now : Date) (mode : FileExpiryMode)
    (options : FileSetExpiryOptions) : Checked (option string) :=
  match mode with
  | RelativeToNow | RelativeToCreation =>
    if falsyNumber (timeToExpireInMs options)
    then Refused (ErrorText
           ("Should specify options.timeToExpireInMs when using mode "
            ++ modeName mode ++ "."))
    else Passed (Some (numberToString (orZero (timeToExpireInMs options))))
  | Absolute =>
    match expiresOn options with
    | None =>
      Refused (ErrorText
        ("Should specify options.expiresOn when using mode "
         ++ modeName mode ++ "."))
    | Some date =>
      if negb (laterThan date now)
      then Refused (ErrorText
             ("options.expiresOn should be later than now: "
              ++ toUTCString now ++ " when using mode " ++ modeName mode
              ++ ", but is " ++ toUTCString date))
      else Passed (Some (toUTCString date))
    end
  | NeverExpire => Passed None
  end.

(** [DataLakeFileClient.setExpiry]. *)
Definition setExpiry (now : Date) (mode : FileExpiryMode)
    (options : FileSetExpiryOptions)
    : Checked (Run SetExpiryRequest FileSetExpiryResponse) :=
  match expiresOnFor now mode options with
  | Refused e => Refused e
  | Passed expiresOn =>
    let request :=
      {| requestMode := mode; requestExpiresOn := expiresOn |} in
    match pathContext_setExpiry request with
    | inl e => Passed (Some (Thrown e, [request]))
    | inr res => Passed (Some (Returned res, [request]))
    end
  end.

(** The operation was refused by the client: it threw before any remote
    call. *)
Definition refused {A : Type} (r : Checked A) : Prop :=
  exists e, r = Refused e.

(** The operation made exactly the remote call for [mode] and
    [expiresOn]. *)
Definition sent (mode : FileExpiryMode) (expiresOn : option string)
    (r : Checked (Run SetExpiryRequest FileSetExpiryResponse)) : Prop :=
  exists o,
    r = Passed (Some (o, [{| requestMode := mode;
                             requestExpiresOn := expiresOn |}])).

End Operation.

Arguments setExpiry numberToString toUTCString {FileSetExpiryResponse}
  pathContext_setExpiry now mode options.
Arguments sent {FileSetExpiryResponse} mode expiresOn r.

End Expiry.

(** ** Upload: the plan, the progress, buffers and streams *)

Module Transfer.

Import Upload.

(** [buf.slice(start, end)] of a Node.js [Buffer]: an index below 0 counts
    from the end, an index past the end is the end, and a range that ends
    before it starts is empty. *)
Definition clampIndex (len i : Z) : Z :=
  if i <? 0 then Z.max 0 (len + i) else Z.min i len.

Definition slice {A : Type} (l : list A) (start end_ : Z) : list A :=
  let len := Z.of_nat (List.length l) in
  let first := clampIndex len start in
  let last := clampIndex len end_ in
  firstn (Z.to_nat (last - first)) (skipn (Z.to_nat first) l).

(** The constants [constants] with byte buffers as request bodies. *)
Definition withBufferBodies (constants : Constants) : Constants :=
  {| BLOCK_BLOB_MAX_BLOCKS := @BLOCK_BLOB_MAX_BLOCKS constants;
     DEFAULT_HIGH_LEVEL_CONCURRENCY :=
       @DEFAULT_HIGH_LEVEL_CONCURRENCY constants;
     FILE_MAX_SINGLE_UPLOAD_THRESHOLD :=
       @FILE_MAX_SINGLE_UPLOAD_THRESHOLD constants;
     FILE_MAX_SIZE_BYTES := @FILE_MAX_SIZE_BYTES constants;
     FILE_UPLOAD_DEFAULT_CHUNK_SIZE :=
       @FILE_UPLOAD_DEFAULT_CHUNK_SIZE constants;
     FILE_UPLOAD_MAX_CHUNK_SIZE := @FILE_UPLOAD_MAX_CHUNK_SIZE constants;
     HttpRequestBody := list Byte.byte;
     FileUploadResponse := @FileUploadResponse constants |}.

Section Engine.

Context {constants : Constants}.

(** The appends an upload of [size] bytes is to make once its options are
    checked: one for the whole payload up to the single-upload threshold,
    the queue of the worker pool above it. *)
Definition planOf (size : Z) (options : FileParallelUploadOptions)
    : list Operation :=
  if size <=? resolveSingleUploadThreshold options
  then [{| start := 0; contentLength := size |}]
  else
    let chunkSize := resolveChunkSize size options in
    operationsOf size chunkSize (numBlocksOf size chunkSize).

(** The totals reported to [options.onProgress], in the order of the
    reports. *)
Definition loadedBytesOf (t : list Event) : list Z :=
  flat_map (fun ev => match ev with
                      | Progress loadedBytes => [loadedBytes]
                      | _ => []
                      end) t.

(** Each number is larger than the one before it, the first larger than
    [from]. *)
Fixpoint increasing (from : Z) (l : list Z) : Prop :=
  match l with
  | [] => True
  | x :: rest => from < x /\ increasing x rest
  end.

(** The bodies of the append requests of a run, in the order the requests
    left. *)
Definition bodiesOf (t : list Event) : list HttpRequestBody :=
  flat_map (fun ev => match ev with
                      | Issued (AppendData body _ _) => [body]
                      | _ => []
                      end) t.

Definition lengthsOf (ops : list Operation) : Z :=
  fold_right (fun op n => contentLength op + n) 0 ops.

(** The constants fit together: at least one block, a default chunk size
    that is itself allowed, and a maximal size that the maximal number of
    maximal chunks can hold. *)
Definition consistentConstants : Prop :=
  1 <= BLOCK_BLOB_MAX_BLOCKS
  /\ 1 <= FILE_UPLOAD_DEFAULT_CHUNK_SIZE <= FILE_UPLOAD_MAX_CHUNK_SIZE
  /\ FILE_MAX_SIZE_BYTES <= BLOCK_BLOB_MAX_BLOCKS * FILE_UPLOAD_MAX_CHUNK_SIZE.

Variable remote : RemoteCall -> Exn + FileUploadResponse.

(** [DataLakeFileClient.uploadStream] up to the construction of the
    [BufferScheduler]: the file is created, then the chunk size and the
    concurrency are resolved and checked.  The result is the arguments
    [bufferSize], [maxBuffers] and [concurrency] of
    [new BufferScheduler(stream, bufferSize, maxBuffers, handler, concurrency)].
    [Math.ceil((maxConcurrency / 4) * 3)] is computed on the integers as the
    ceiling of [maxConcurrency * 3 / 4]. *)
Definition uploadStreamSetup (options : FileParallelUploadOptions)
    : UploadRun (Z * Z * Z) :=
  _ <- create remote ;;
  let chunkSize :=
    if falsyNumber (chunkSize options)
    then FILE_UPLOAD_DEFAULT_CHUNK_SIZE
    else orZero (chunkSize options) in
  if (chunkSize <? 1) || (chunkSize >? FILE_UPLOAD_MAX_CHUNK_SIZE)
  then throw (RangeError ChunkSizeOutOfRange)
  else
    let maxConcurrency := resolveMaxConcurrency options in
    if maxConcurrency <=? 0
    then throw (RangeError MaxConcurrencyNotPositive)
    else ret (chunkSize, maxConcurrency, ceilDiv (maxConcurrency * 3) 4).

End Engine.

(** [DataLakeFileClient.upload] on a [Buffer]: the size is the length of the
    buffer and the body for a range is that slice of the buffer. *)
Definition upload {constants : Constants}
    (remote : @RemoteCall (withBufferBodies constants) ->
              Exn + @FileUploadResponse (withBufferBodies constants))
    (choose : list Operation -> nat) (data : list Byte.byte)
    (options : FileParallelUploadOptions)
    : @UploadRun (withBufferBodies constants)
                 (@FileUploadResponse (withBufferBodies constants)) :=
  @uploadSeekableInternal (withBufferBodies constants) remote
    (fun offset size => slice data offset (offset + size))
    choose (Z.of_nat (List.length data)) options.

(** *** Sample data *)

(** Constants small enough to upload a dozen bytes in chunks. *)
Definition smallConstants : Constants :=
  {| BLOCK_BLOB_MAX_BLOCKS := 4;
     DEFAULT_HIGH_LEVEL_CONCURRENCY := 2;
     FILE_MAX_SINGLE_UPLOAD_THRESHOLD := 4;
     FILE_MAX_SIZE_BYTES := 32;
     FILE_UPLOAD_DEFAULT_CHUNK_SIZE := 2;
     FILE_UPLOAD_MAX_CHUNK_SIZE := 8;
     HttpRequestBody := list Byte.byte;
     FileUploadResponse := string |}.

Definition acceptingRemote
    (c : @RemoteCall (withBufferBodies smallConstants))
    : Exn + @FileUploadResponse (withBufferBodies smallConstants) :=
  inr "ok"%string.

Definition elevenBytes : list Byte.byte :=
  [Byte.x68; Byte.x65; Byte.x6c; Byte.x6c; Byte.x6f; Byte.x20;
   Byte.x77; Byte.x6f; Byte.x72; Byte.x6c; Byte.x64].

End Transfer.

(** * Properties *)

(** ** Effects *)

Lemma after_nil {E A : Type} (r : Run E A) : after [] r = r.
Proof. destruct r as [[o t]|]; reflexivity. Qed.

Lemma after_app {E A : Type} (t1 t2 : list E) (r : Run E A) :
  after (t1 ++ t2) r = after t1 (after t2 r).
Proof.
  destruct r as [[o t]|]; simpl; [|reflexivity].
  now rewrite app_assoc.
Qed.

(** The last element of a non-empty list does not depend on the default. *)
Lemma last_cons {A : Type} (l : list A) : forall a d,
  last (a :: l) d = last l a.
Proof.
  induction l as [|b l IH]; intros a d; [reflexivity|].
  change (last (a :: b :: l) d) with (last (b :: l) d).
  now rewrite !IH.
Qed.

(** ** Recursive ACL change *)

Module AclProofs.

Import Acl.

Section Loop.

Context {transforms : Transforms}.
Variable server : nat -> Exn + PathSetAccessControlRecursiveResponse.
Variable mode : PathSetAccessControlRecursiveMode.
Variable acl : PathAccessControlItems.
Variable options : PathChangeAccessControlRecursiveOptions.

Abbreviation loop := (batchLoop server mode acl options).
Abbreviation events := (scriptEvents mode acl options).

Lemma keepsGoing_intro rs : forall k,
  answers server k rs ->
  Forall (fun x => truthyString (continuation x) = true) rs ->
  (forall m, maxBatches options = Some m ->
             Z.of_nat (k + List.length rs) < m) ->
  keepsGoing server options k rs.
Proof.
  induction rs as [|x rest IH]; intros k Hans Htok Hcap; simpl; [exact I|].
  destruct Hans as [Hx Hrest].
  inversion Htok as [|? ? Hx1 Hrest1]; subst.
  repeat split; trivial.
  - unfold reachMaxBatchesOf.
    destruct (maxBatches options) as [m|] eqn:Hm; [|reflexivity].
    specialize (Hcap m eq_refl). simpl in Hcap.
    rewrite Z.geb_leb. apply Z.leb_gt. lia.
  - apply IH; trivial.
    intros m Hm. specialize (Hcap m Hm). simpl in Hcap.
    replace (S k + List.length rest)%nat
      with (k + S (List.length rest))%nat by lia.
    exact Hcap.
Qed.

Lemma answers_app rs1 : forall k rs2,
  answers server k (rs1 ++ rs2) ->
  answers server k rs1 /\ answers server (k + List.length rs1) rs2.
Proof.
  induction rs1 as [|x rest IH]; intros k rs2 H; cbn in *.
  - now rewrite Nat.add_0_r.
  - destruct H as [Hx H]. apply IH in H. destruct H as [H1 H2].
    replace (k + S (List.length rest))%nat
      with (S k + List.length rest)%nat by lia.
    now repeat split.
Qed.

(** One iteration that goes round again. *)
Lemma loop_continue fuel token k result x :
  quietCallback options ->
  server k = inr x ->
  truthyString (continuation x) = true ->
  reachMaxBatchesOf options (S k) = false ->
  loop (S fuel) token k result =
  after (events token (counters result) [x])
        (loop fuel (continuation x) (S k) (updateResult result x)).
Proof.
  intros Hq Hx Htok Hcap. simpl.
  rewrite Hx, Htok, Hcap. simpl.
  destruct (onProgress options) as [cb|] eqn:Hcb; [|reflexivity].
  now rewrite (Hq cb _ Hcb).
Qed.

(** The iteration after which the loop is left. *)
Lemma loop_stop fuel token k result x :
  quietCallback options ->
  server k = inr x ->
  truthyString (continuation x) = false
  \/ reachMaxBatchesOf options (S k) = true ->
  loop (S fuel) token k result =
  Some (Returned (updateResult result x),
        events token (counters result) [x]).
Proof.
  intros Hq Hx Hstop. simpl. rewrite Hx.
  assert (Hgo : truthyString (continuation x)
                && negb (reachMaxBatchesOf options (S k)) = false).
  { destruct Hstop as [-> | ->]; [reflexivity|].
    now rewrite andb_false_r. }
  rewrite Hgo.
  destruct (onProgress options) as [cb|] eqn:Hcb; [|reflexivity].
  now rewrite (Hq cb _ Hcb).
Qed.

(** The iteration whose remote call fails. *)
Lemma loop_fail fuel token k result e :
  server k = inl e ->
  loop (S fuel) token k result =
  Some (Thrown (DataLakeAclChangeFailedError e token),
        [RemoteCall (request mode acl options token)]).
Proof. intros He. simpl. now rewrite He. Qed.

Lemma events_app rs1 : forall rs2 token c,
  events token c (rs1 ++ rs2) =
  events token c rs1
  ++ events (last (map continuation rs1) token) (fold_left addBatch rs1 c)
            rs2.
Proof.
  induction rs1 as [|x rest IH]; intros rs2 token c; [reflexivity|].
  cbn [app scriptEvents]. rewrite IH.
  cbn [map fold_left]. rewrite last_cons.
  now rewrite <- app_assoc.
Qed.

Lemma loop_prefix rs : forall fuel token k result,
  quietCallback options ->
  keepsGoing server options k rs ->
  loop (List.length rs + fuel)%nat token k result =
  after (events token (counters result) rs)
        (loop fuel (last (map continuation rs) token) (k + List.length rs)%nat
              (fold_left updateResult rs result)).
Proof.
  induction rs as [|x rest IH]; intros fuel token k result Hq Hgo.
  - cbn [List.length scriptEvents map last fold_left Nat.add].
    now rewrite after_nil, Nat.add_0_r.
  - destruct Hgo as (Hx & Htok & Hcap & Hrest).
    cbn [List.length Nat.add].
    rewrite (loop_continue _ _ _ _ _ Hq Hx Htok Hcap).
    rewrite (IH _ _ _ _ Hq Hrest).
    rewrite <- after_app.
    change (events token (counters result) (x :: rest))
      with (events token (counters result) ([x] ++ rest)).
    rewrite (events_app [x] rest).
    cbn [map fold_left]. rewrite !last_cons. cbn [last].
    now replace (S k + List.length rest)%nat
      with (k + S (List.length rest))%nat by lia.
Qed.

Lemma counters_fold rs : forall result,
  counters (fold_left updateResult rs result) =
  fold_left addBatch rs (counters result).
Proof.
  induction rs as [|x rest IH]; intros result; [reflexivity|].
  cbn [fold_left]. now rewrite IH.
Qed.

Lemma requestsOf_app (t1 t2 : list Event) :
  requestsOf (t1 ++ t2) = requestsOf t1 ++ requestsOf t2.
Proof. apply flat_map_app. Qed.

Lemma progressesOf_app (t1 t2 : list Event) :
  progressesOf (t1 ++ t2) = progressesOf t1 ++ progressesOf t2.
Proof. apply flat_map_app. Qed.

Lemma requestsOf_events rs : forall token c,
  requestsOf (events token c rs) =
  map (request mode acl options)
      (firstn (List.length rs) (token :: map continuation rs)).
Proof.
  induction rs as [|x rest IH]; intros token c; [reflexivity|].
  cbn [scriptEvents]. rewrite app_comm_cons, requestsOf_app, IH.
  cbn [List.length map firstn].
  destruct (onProgress options); reflexivity.
Qed.

Lemma firstn_snoc {A : Type} (l : list A) (a : A) :
  firstn (List.length l) (l ++ [a]) = l.
Proof.
  rewrite firstn_app, Nat.sub_diag, firstn_all. cbn. apply app_nil_r.
Qed.

(** The tokens sent with the calls that receive [rs ++ [r]]: the token the
    loop is entered with, then the token of each response but the last. *)
Lemma tokens_sent rs r token c :
  map reqContinuation (requestsOf (events token c (rs ++ [r]))) =
  token :: map continuation rs.
Proof.
  rewrite requestsOf_events, map_map. cbn [reqContinuation request].
  rewrite map_id, length_app, map_app. cbn [List.length map].
  rewrite Nat.add_1_r.
  change (token :: map continuation rs ++ [continuation r])
    with ((token :: map continuation rs) ++ [continuation r]).
  rewrite <- (length_map continuation rs) at 1.
  change (S (List.length (map continuation rs)))
    with (List.length (token :: map continuation rs)).
  apply firstn_snoc.
Qed.

Lemma calls_made rs token c :
  List.length (requestsOf (events token c rs)) = List.length rs.
Proof.
  rewrite requestsOf_events, length_map, firstn_length_le; [reflexivity|].
  cbn [List.length]. rewrite length_map. lia.
Qed.

(** With a callback, the aggregate counters delivered are the running
    sums. *)
Lemma aggregates_delivered rs : forall token c,
  onProgress options <> None ->
  map aggregateCounters (progressesOf (events token c rs)) =
  map (fun n => fold_left addBatch (firstn (S n) rs) c)
      (seq 0 (List.length rs)).
Proof.
  induction rs as [|x rest IH]; intros token c Hcb; [reflexivity|].
  cbn [scriptEvents]. rewrite app_comm_cons, progressesOf_app, map_app.
  rewrite (IH _ _ Hcb).
  cbn [List.length seq map firstn fold_left].
  rewrite <- seq_shift, map_map.
  destruct (onProgress options); [reflexivity|congruence].
Qed.

Lemma fold_add_shift l : forall a b,
  fold_left Z.add l (a + b) = a + fold_left Z.add l b.
Proof.
  induction l as [|v l IH]; intros a b; [reflexivity|].
  cbn [fold_left]. now rewrite <- Z.add_assoc, IH.
Qed.

Lemma sumCounters_fields rs : forall c,
  failedChangesCount (fold_left addBatch rs c) =
  failedChangesCount c
  + list_sum_Z (map (fun x => orZero (failureCount x)) rs)
  /\ changedDirectoriesCount (fold_left addBatch rs c) =
     changedDirectoriesCount c
     + list_sum_Z (map (fun x => orZero (directoriesSuccessful x)) rs)
  /\ changedFilesCount (fold_left addBatch rs c) =
     changedFilesCount c
     + list_sum_Z (map (fun x => orZero (filesSuccessful x)) rs).
Proof.
  unfold list_sum_Z.
  induction rs as [|x rest IH]; intros c; cbn [fold_left map].
  - lia.
  - destruct (IH (addBatch c x)) as (H1 & H2 & H3).
    rewrite H1, H2, H3. cbn [addBatch failedChangesCount
      changedDirectoriesCount changedFilesCount].
    rewrite <- !(fold_add_shift _ _ 0), !Z.add_0_r.
    rewrite <- !fold_add_shift. repeat split; f_equal; lia.
Qed.

Lemma addBatch_le c x :
  nonNegative x -> countersLe c (addBatch c x).
Proof.
  intros (H1 & H2 & H3). unfold countersLe, addBatch. cbn. lia.
Qed.

Lemma countersLe_refl c : countersLe c c.
Proof. unfold countersLe. lia. Qed.

Lemma countersLe_trans a b c :
  countersLe a b -> countersLe b c -> countersLe a c.
Proof. unfold countersLe. lia. Qed.

Lemma running_sum_le rs : forall n c,
  Forall nonNegative rs ->
  countersLe (fold_left addBatch (firstn n rs) c)
             (fold_left addBatch (firstn (S n) rs) c).
Proof.
  induction rs as [|x rest IH]; intros n c Hnn.
  - rewrite !firstn_nil. apply countersLe_refl.
  - inversion Hnn as [|? ? Hx Hrest]; subst.
    destruct n as [|n]; cbn [firstn fold_left].
    + now apply addBatch_le.
    + now apply IH.
Qed.

Lemma total_sum_le rs : forall c,
  Forall nonNegative rs -> countersLe c (fold_left addBatch rs c).
Proof.
  induction rs as [|x rest IH]; intros c Hnn; [apply countersLe_refl|].
  inversion Hnn as [|? ? Hx Hrest]; subst. cbn [fold_left].
  apply countersLe_trans with (addBatch c x);
    [now apply addBatch_le|now apply IH].
Qed.

(** The run on a script that ends with the response after which the loop is
    left. *)
Lemma run_returns rs r fuel :
  tooSmall (maxBatches options) = false ->
  tooSmall (batchSize options) = false ->
  quietCallback options ->
  answers server 0 (rs ++ [r]) ->
  Forall (fun x => truthyString (continuation x) = true) rs ->
  (forall m, maxBatches options = Some m -> Z.of_nat (List.length rs) < m) ->
  truthyString (continuation r) = false
  \/ maxBatches options = Some (Z.of_nat (List.length rs) + 1) ->
  (List.length rs < fuel)%nat ->
  setAccessControlRecursiveInternal server mode acl options fuel =
  Some (Returned {| counters := sumCounters (rs ++ [r]);
                    continuationToken := continuation r |},
        events (optContinuationToken options) zeroCounters (rs ++ [r])).
Proof.
  intros Hmb Hbs Hq Hans Htok Hcap Hstop Hfuel.
  unfold setAccessControlRecursiveInternal. rewrite Hmb, Hbs.
  replace fuel
    with (List.length rs + S (fuel - S (List.length rs)))%nat by lia.
  apply answers_app in Hans. destruct Hans as [Hrs [Hr _]].
  assert (Hgo : keepsGoing server options 0 rs)
    by (apply keepsGoing_intro; trivial).
  rewrite (loop_prefix _ _ _ _ _ Hq Hgo).
  rewrite (loop_stop _ _ _ _ r Hq Hr).
  - cbn [after]. rewrite events_app, counters_fold.
    unfold updateResult. rewrite counters_fold.
    unfold sumCounters. rewrite fold_left_app. reflexivity.
  - destruct Hstop as [Hs|Hs]; [now left|right].
    unfold reachMaxBatchesOf. rewrite Hs, Z.geb_leb.
    apply Z.leb_le. lia.
Qed.

(** The run on a script that ends with a failing call. *)
Lemma run_fails rs e fuel :
  tooSmall (maxBatches options) = false ->
  tooSmall (batchSize options) = false ->
  quietCallback options ->
  answers server 0 rs ->
  Forall (fun x => truthyString (continuation x) = true) rs ->
  (forall m, maxBatches options = Some m -> Z.of_nat (List.length rs) < m) ->
  server (List.length rs) = inl e ->
  (List.length rs < fuel)%nat ->
  let resume := last (map continuation rs) (optContinuationToken options) in
  setAccessControlRecursiveInternal server mode acl options fuel =
  Some (Thrown (DataLakeAclChangeFailedError e resume),
        events (optContinuationToken options) zeroCounters rs
        ++ [RemoteCall (request mode acl options resume)]).
Proof.
  intros Hmb Hbs Hq Hans Htok Hcap He Hfuel resume.
  unfold setAccessControlRecursiveInternal. rewrite Hmb, Hbs.
  replace fuel
    with (List.length rs + S (fuel - S (List.length rs)))%nat by lia.
  assert (Hgo : keepsGoing server options 0 rs)
    by (apply keepsGoing_intro; trivial).
  rewrite (loop_prefix _ _ _ _ _ Hq Hgo).
  rewrite (loop_fail _ _ _ _ e He). reflexivity.
Qed.

(** C1. On successful responses the loop issues one batch per response
    until a response carries an empty or absent token or, with [maxBatches]
    set, until the batch counter reaches [maxBatches]: when the responses
    [rs] all carry a token, fewer than [maxBatches] of them, and the next
    response [r] carries none or is the one numbered [maxBatches], the
    operation returns after exactly [length rs + 1] remote calls, each sent
    with the token of the response before it, and the token of the result is
    the token of [r] (empty or absent in the first case, the remaining token
    in the second). *)
Theorem loop_stops_on_empty_token_or_cap rs r fuel :
  tooSmall (maxBatches options) = false ->
  tooSmall (batchSize options) = false ->
  quietCallback options ->
  answers server 0 (rs ++ [r]) ->
  Forall (fun x => truthyString (continuation x) = true) rs ->
  (forall m, maxBatches options = Some m -> Z.of_nat (List.length rs) < m) ->
  truthyString (continuation r) = false
  \/ maxBatches options = Some (Z.of_nat (List.length rs) + 1) ->
  (List.length rs < fuel)%nat ->
  exists result t,
    setAccessControlRecursiveInternal server mode acl options fuel =
    Some (Returned result, t)
    /\ List.length (requestsOf t) = S (List.length rs)
    /\ map reqContinuation (requestsOf t) =
       optContinuationToken options :: map continuation rs
    /\ continuationToken result = continuation r.
Proof.
  intros Hmb Hbs Hq Hans Htok Hcap Hstop Hfuel.
  eexists _, _. split; [apply (run_returns rs r fuel); assumption|].
  split; [|split].
  - rewrite calls_made, length_app. cbn. lia.
  - apply tokens_sent.
  - reflexivity.
Qed.

(** C2. The counters of the returned result are the sums, over the batches
    in issue order, of the batch counts (a missing count is 0); the aggregate
    counters handed to the callback after each batch are the running sums;
    and when no batch count is negative the counters are non-negative and the
    running sums never decrease from one batch to the next. *)
Theorem counters_are_batch_sums rs r fuel :
  tooSmall (maxBatches options) = false ->
  tooSmall (batchSize options) = false ->
  quietCallback options ->
  answers server 0 (rs ++ [r]) ->
  Forall (fun x => truthyString (continuation x) = true) rs ->
  (forall m, maxBatches options = Some m -> Z.of_nat (List.length rs) < m) ->
  truthyString (continuation r) = false
  \/ maxBatches options = Some (Z.of_nat (List.length rs) + 1) ->
  (List.length rs < fuel)%nat ->
  exists result t,
    setAccessControlRecursiveInternal server mode acl options fuel =
    Some (Returned result, t)
    /\ failedChangesCount (counters result) =
       list_sum_Z (map (fun x => orZero (failureCount x)) (rs ++ [r]))
    /\ changedDirectoriesCount (counters result) =
       list_sum_Z (map (fun x => orZero (directoriesSuccessful x)) (rs ++ [r]))
    /\ changedFilesCount (counters result) =
       list_sum_Z (map (fun x => orZero (filesSuccessful x)) (rs ++ [r]))
    /\ counters result = sumCounters (rs ++ [r])
    /\ (onProgress options <> None ->
        map aggregateCounters (progressesOf t) =
        map (fun n => sumCounters (firstn (S n) (rs ++ [r])))
            (seq 0 (S (List.length rs))))
    /\ (Forall nonNegative (rs ++ [r]) ->
        countersLe zeroCounters (counters result)
        /\ forall n, countersLe (sumCounters (firstn n (rs ++ [r])))
                               (sumCounters (firstn (S n) (rs ++ [r])))).
Proof.
  intros Hmb Hbs Hq Hans Htok Hcap Hstop Hfuel.
  eexists _, _. split; [apply (run_returns rs r fuel); assumption|].
  cbn [counters].
  destruct (sumCounters_fields (rs ++ [r]) zeroCounters) as (H1 & H2 & H3).
  cbn in H1, H2, H3.
  repeat split; trivial.
  - intros Hcb. rewrite (aggregates_delivered _ _ _ Hcb), length_app.
    cbn [List.length]. now rewrite Nat.add_1_r.
  - now apply total_sum_le.
  - now apply total_sum_le.
  - now apply total_sum_le.
  - now apply running_sum_le.
  - now apply running_sum_le.
  - now apply running_sum_le.
Qed.

(** C5. A request whose [batchSize] or [maxBatches] is supplied and smaller
    than 1 is refused with a range error before any remote call: the run has
    no effect at all, whatever the service would have answered. *)
Theorem refuses_small_batch_options fuel :
  (exists m, maxBatches options = Some m /\ m < 1)
  \/ (exists b, batchSize options = Some b /\ b < 1) ->
  exists reason,
    setAccessControlRecursiveInternal server mode acl options fuel =
    Some (Thrown (RangeError reason), []).
Proof.
  intros Hbad. unfold setAccessControlRecursiveInternal.
  destruct (tooSmall (maxBatches options)) eqn:Hmb; [now eexists|].
  destruct (tooSmall (batchSize options)) eqn:Hbs; [now eexists|].
  exfalso. unfold tooSmall in *.
  destruct Hbad as [(m & Hm & Hlt) | (b & Hb & Hlt)].
  - rewrite Hm in Hmb. apply Z.ltb_ge in Hmb. lia.
  - rewrite Hb in Hbs. apply Z.ltb_ge in Hbs. lia.
Qed.

(** C6. When the remote call fails on a batch, after the batches [rs] went
    through, the loop makes no further call: the failing call is its last
    effect.  It throws a [DataLakeAclChangeFailedError] that holds the
    exception of the remote layer and the token of the last successful batch,
    or the token of the options when the first call fails.  The progress
    reported for the batches that went through stands: the aggregates
    delivered are the running sums over [rs]. *)
Theorem failure_carries_last_token rs e fuel :
  tooSmall (maxBatches options) = false ->
  tooSmall (batchSize options) = false ->
  quietCallback options ->
  answers server 0 rs ->
  Forall (fun x => truthyString (continuation x) = true) rs ->
  (forall m, maxBatches options = Some m -> Z.of_nat (List.length rs) < m) ->
  server (List.length rs) = inl e ->
  (List.length rs < fuel)%nat ->
  let resume := last (map continuation rs) (optContinuationToken options) in
  exists t t0,
    setAccessControlRecursiveInternal server mode acl options fuel =
    Some (Thrown (DataLakeAclChangeFailedError e resume), t)
    /\ t = t0 ++ [RemoteCall (request mode acl options resume)]
    /\ List.length (requestsOf t) = S (List.length rs)
    /\ (onProgress options <> None ->
        map aggregateCounters (progressesOf t) =
        map (fun n => sumCounters (firstn (S n) rs))
            (seq 0 (List.length rs))).
Proof.
  intros Hmb Hbs Hq Hans Htok Hcap He Hfuel resume.
  eexists _, _. split; [apply (run_fails rs e fuel); assumption|].
  split; [reflexivity|]. split.
  - rewrite requestsOf_app, length_app, calls_made. cbn. lia.
  - intros Hcb. rewrite progressesOf_app, map_app.
    rewrite (aggregates_delivered _ _ _ Hcb). cbn. apply app_nil_r.
Qed.

End Loop.

(** On the tokens "A" then "", two remote calls are made and the token of
    the result is the empty one. *)
Lemma loop_stops_witness :
  exists result t,
    setAccessControlRecursive serviceAThenEnd sampleAcl
      (sampleOptions (Some 2) None None) 2 = Some (Returned result, t)
    /\ List.length (requestsOf t) = 2%nat
    /\ map reqContinuation (requestsOf t) = [None; Some "A"%string]
    /\ continuationToken result = Some ""%string.
Proof.
  apply (loop_stops_on_empty_token_or_cap serviceAThenEnd set sampleAcl
           (sampleOptions (Some 2) None None) [responseA] responseEnd 2).
  - reflexivity.
  - reflexivity.
  - intros callback p H. injection H as <-. reflexivity.
  - cbn. auto.
  - repeat constructor.
  - intros m H. discriminate H.
  - left. reflexivity.
  - cbn. lia.
Defined.

(** With [maxBatches = 1] the loop is left after one call although the
    token "A" remains; the result carries that token. *)
Lemma loop_stops_at_cap_example :
  setAccessControlRecursive serviceAThenEnd sampleAcl
    (sampleOptions (Some 2) (Some 1) None) 5 =
  Some (Returned {| counters := {| failedChangesCount := 1;
                                   changedDirectoriesCount := 2;
                                   changedFilesCount := 0 |};
                    continuationToken := Some "A"%string |},
        [RemoteCall (request set sampleAcl
                       (sampleOptions (Some 2) (Some 1) None) None);
         ProgressCall (progressOf {| failedChangesCount := 1;
                                     changedDirectoriesCount := 2;
                                     changedFilesCount := 0 |} responseA)]).
Proof. reflexivity. Qed.

(** An exception of the progress callback is not caught: it leaves the loop
    after the first batch. *)
Lemma callback_exception_example :
  exists t,
    updateAccessControlRecursive serviceAThenEnd sampleAcl
      {| batchSize := None;
         maxBatches := None;
         optContinuationToken := None;
         continueOnFailure := None;
         onProgress := Some (fun _ => Some (Error "callback failed")) |} 5 =
    Some (Thrown (Error "callback failed"), t)
    /\ List.length (requestsOf t) = 1%nat.
Proof. eexists. split; reflexivity. Qed.

(** On the sample service the counters of the result are 1 + 0 failures,
    2 + 0 directories and 0 + 4 files. *)
Lemma counters_witness :
  exists result t,
    setAccessControlRecursive serviceAThenEnd sampleAcl
      (sampleOptions (Some 2) None None) 5 = Some (Returned result, t)
    /\ counters result =
       {| failedChangesCount := 1;
          changedDirectoriesCount := 2;
          changedFilesCount := 4 |}
    /\ map aggregateCounters (progressesOf t) =
       [ {| failedChangesCount := 1;
            changedDirectoriesCount := 2;
            changedFilesCount := 0 |};
         {| failedChangesCount := 1;
            changedDirectoriesCount := 2;
            changedFilesCount := 4 |} ].
Proof.
  destruct (counters_are_batch_sums serviceAThenEnd set sampleAcl
              (sampleOptions (Some 2) None None) [responseA] responseEnd 5)
    as (result & t & Hrun & _ & _ & _ & Hsum & Hagg & _).
  - reflexivity.
  - reflexivity.
  - intros callback p H. injection H as <-. reflexivity.
  - cbn. auto.
  - repeat constructor.
  - intros m H. discriminate H.
  - left. reflexivity.
  - cbn. lia.
  - exists result, t. split; [exact Hrun|]. split.
    + rewrite Hsum. reflexivity.
    + rewrite Hagg; [reflexivity|discriminate].
Defined.

(** [batchSize = 0] is refused without any remote call. *)
Lemma refuses_witness :
  exists reason,
    setAccessControlRecursive serviceAThenEnd sampleAcl
      (sampleOptions (Some 0) None None) 5 =
    Some (Thrown (RangeError reason), []).
Proof.
  apply (refuses_small_batch_options serviceAThenEnd set sampleAcl
           (sampleOptions (Some 0) None None) 5).
  right. exists 0. split; [reflexivity|lia].
Defined.

(** When the third call fails, the error holds the token "B" of the second
    batch and three calls were made. *)
Lemma failure_witness :
  exists t t0,
    setAccessControlRecursive serviceFailsThird sampleAcl
      (sampleOptions None (Some 7) (Some "start"%string)) 5 =
    Some (Thrown (DataLakeAclChangeFailedError (Error "connection reset")
                    (Some "B"%string)), t)
    /\ t = t0 ++ [RemoteCall
                    (request set sampleAcl
                       (sampleOptions None (Some 7) (Some "start"%string))
                       (Some "B"%string))]
    /\ List.length (requestsOf t) = 3%nat
    /\ (onProgress (sampleOptions None (Some 7) (Some "start"%string))
        <> None ->
        map aggregateCounters (progressesOf t) =
        map (fun n => sumCounters (firstn (S n) [responseA; responseB]))
            (seq 0 2)).
Proof.
  apply (failure_carries_last_token serviceFailsThird set sampleAcl
           (sampleOptions None (Some 7) (Some "start"%string))
           [responseA; responseB] (Error "connection reset") 5).
  - reflexivity.
  - reflexivity.
  - intros callback p H. injection H as <-. reflexivity.
  - cbn. auto.
  - repeat constructor.
  - intros m H. injection H as <-. cbn. lia.
  - reflexivity.
  - cbn. lia.
Defined.

End AclProofs.

(** ** Delete *)

Module DeleteProofs.

Import Delete.

Section Loop.

Context {models : Models}.
Variable server : nat -> Exn + PathDeleteResponse.
Variable recursive : option bool.
Variable conditions : Conditions.

Abbreviation loop := (deleteLoop server recursive conditions).

Lemma hasToken_more x : hasToken x -> moreToDelete (continuation x) = true.
Proof.
  intros (s & Hs & Hne). rewrite Hs. cbn.
  destruct (String.eqb_spec s EmptyString); [contradiction|reflexivity].
Qed.

Lemma lastPage_done x : lastPage x -> moreToDelete (continuation x) = false.
Proof. intros [H | H]; rewrite H; reflexivity. Qed.

(** The loop goes round once for each response that carries a token. *)
Lemma deleteLoop_pages rs : forall r fuel token k,
  answers server k (rs ++ [r]) ->
  Forall hasToken rs ->
  lastPage r ->
  (List.length rs < fuel)%nat ->
  loop fuel token k =
  Some (Returned r,
        map (request recursive conditions) (token :: map continuation rs)).
Proof.
  induction rs as [|x rest IH]; intros r fuel token k Hans Htok Hlast Hfuel;
    (destruct fuel as [|fuel]; [cbn in Hfuel; lia|]);
    destruct Hans as [Hx Hrest]; cbn [deleteLoop]; rewrite Hx.
  - now rewrite (lastPage_done _ Hlast).
  - inversion Htok as [|? ? Hx1 Hrest1]; subst.
    rewrite (hasToken_more _ Hx1).
    rewrite (IH r fuel (continuation x) (S k)); trivial.
    cbn in Hfuel. lia.
Qed.

(** C10. [delete] is a continuation-token loop: it calls the remote delete
    once for each response that carries a non-empty token and once more, the
    first call without a token and each later call with the token of the
    response before it, until a response carries no token or the empty one;
    it returns that last response.  After [length rs] responses with a token
    it has made [length rs + 1] remote calls. *)
Theorem delete_follows_continuation rs r fuel :
  answers server 0 (rs ++ [r]) ->
  Forall hasToken rs ->
  lastPage r ->
  (List.length rs < fuel)%nat ->
  exists t,
    delete server recursive conditions fuel = Some (Returned r, t)
    /\ map reqContinuation t = None :: map continuation rs
    /\ List.length t = S (List.length rs).
Proof.
  intros Hans Htok Hlast Hfuel. eexists. split.
  - unfold delete. apply (deleteLoop_pages rs r); assumption.
  - split.
    + rewrite map_map. cbn [map request reqContinuation]. now rewrite map_id.
    + cbn. now rewrite !length_map.
Qed.

End Loop.

(** One [delete] of the sample directory makes three remote calls and
    returns the third response. *)
Lemma delete_witness :
  exists t,
    delete serviceThreePages (Some true) tt 3 =
    Some (Returned (None, "request-3"%string), t)
    /\ map reqContinuation t =
       [None; Some "page-2"%string; Some "page-3"%string]
    /\ List.length t = 3%nat.
Proof.
  apply (delete_follows_continuation serviceThreePages (Some true) tt
           [(Some "page-2"%string, "request-1"%string);
            (Some "page-3"%string, "request-2"%string)]
           (None, "request-3"%string) 3).
  - cbn. auto.
  - repeat constructor; eexists; (split; [reflexivity|discriminate]).
  - left. reflexivity.
  - cbn. lia.
Defined.

End DeleteProofs.

(** ** Seekable upload *)

Module UploadProofs.

Import Upload.

(** [ceilDiv a b] is the least integer whose product with [b] reaches
    [a]. *)
Lemma ceilDiv_spec a b :
  0 < b -> b * (ceilDiv a b - 1) < a <= b * ceilDiv a b.
Proof.
  intros Hb. unfold ceilDiv.
  pose proof (Z.div_mod (- a) b ltac:(lia)) as Hdm.
  pose proof (Z.mod_pos_bound (- a) b Hb) as Hmod.
  nia.
Qed.

Lemma ceilDiv_unique a b q :
  0 < b -> b * (q - 1) < a <= b * q -> q = ceilDiv a b.
Proof.
  intros Hb Hq. pose proof (ceilDiv_spec a b Hb) as Hc. nia.
Qed.

(** The number of blocks the code computes is the ceiling of
    [size / chunkSize]. *)
Lemma numBlocks_ceil size chunkSize :
  0 < chunkSize -> numBlocksOf size chunkSize = ceilDiv size chunkSize.
Proof.
  intros Hc. apply ceilDiv_unique; [exact Hc|].
  unfold numBlocksOf, floorDiv.
  pose proof (Z.div_mod (size - 1) chunkSize ltac:(lia)) as Hdm.
  pose proof (Z.mod_pos_bound (size - 1) chunkSize Hc) as Hmod.
  nia.
Qed.

Lemma numBlocks_pos size chunkSize :
  0 < chunkSize -> 0 < size -> 1 <= numBlocksOf size chunkSize.
Proof.
  intros Hc Hs. unfold numBlocksOf, floorDiv.
  pose proof (Z.div_pos (size - 1) chunkSize ltac:(lia) Hc). lia.
Qed.

(** *** The chunks of the queue *)

Section Geometry.

Variable size chunkSize : Z.
Hypothesis chunkSize_pos : 0 < chunkSize.
Hypothesis size_pos : 0 < size.

Abbreviation numBlocks := (numBlocksOf size chunkSize).
Abbreviation chunkAt :=
  (fun i : nat => chunkOf (operationAt size chunkSize numBlocks (Z.of_nat i))).

Lemma chunks_of_queue :
  map chunkOf (operationsOf size chunkSize numBlocks) =
  map chunkAt (seq 0 (Z.to_nat numBlocks)).
Proof. unfold operationsOf. now rewrite map_map. Qed.

(** The last chunk ends at [size] and is not empty. *)
Lemma last_chunk_bounds :
  0 < size - chunkSize * (numBlocks - 1) <= chunkSize.
Proof.
  unfold numBlocksOf, floorDiv.
  pose proof (Z.div_mod (size - 1) chunkSize ltac:(lia)) as Hdm.
  pose proof (Z.mod_pos_bound (size - 1) chunkSize chunkSize_pos) as Hmod.
  nia.
Qed.

(** The chunks numbered [k], ..., [k + n - 1], the last of them being the
    last of the queue, follow one another and end at [size]. *)
Lemma chunks_from n : forall k,
  (k + S n = Z.to_nat numBlocks)%nat ->
  contiguousFrom (chunkSize * Z.of_nat k) (map chunkAt (seq k (S n)))
  /\ totalLength (map chunkAt (seq k (S n))) = size - chunkSize * Z.of_nat k.
Proof.
  induction n as [|n IH]; intros k Hk.
  - cbn [seq map contiguousFrom totalLength fold_right chunkOf operationAt
         start contentLength snd].
    replace (Z.of_nat k =? numBlocks - 1) with true
      by (symmetry; apply Z.eqb_eq; lia).
    repeat split; lia.
  - destruct (IH (S k) ltac:(lia)) as [Hcont Hsum].
    rewrite <- cons_seq, map_cons.
    set (rest := map chunkAt (seq (S k) (S n))) in *.
    cbn [contiguousFrom totalLength fold_right chunkOf operationAt
         start contentLength snd].
    replace (Z.of_nat k =? numBlocks - 1) with false
      by (symmetry; apply Z.eqb_neq; lia).
    split; [split; [reflexivity|]|].
    + replace (chunkSize * Z.of_nat k
               + (chunkSize * Z.of_nat k + chunkSize - chunkSize * Z.of_nat k))
        with (chunkSize * Z.of_nat (S k)) by lia.
      exact Hcont.
    + unfold totalLength in Hsum. rewrite Hsum. lia.
Qed.

(** The chunk numbered [i]: it starts at [chunkSize * i]; it has
    [chunkSize] bytes unless it is the last one, which has the rest. *)
Lemma chunk_at i position length :
  nth_error (map chunkOf (operationsOf size chunkSize numBlocks)) i =
  Some (position, length) ->
  position = chunkSize * Z.of_nat i
  /\ (Z.of_nat i < numBlocks - 1 -> length = chunkSize)
  /\ (Z.of_nat i = numBlocks - 1 ->
      length = size - (numBlocks - 1) * chunkSize).
Proof.
  rewrite chunks_of_queue, nth_error_map, nth_error_seq.
  destruct (Nat.ltb i (Z.to_nat numBlocks)); [|discriminate].
  cbn [option_map Nat.add chunkOf operationAt start contentLength].
  intros H. injection H as <- <-.
  destruct (Z.eqb_spec (Z.of_nat i) (numBlocks - 1)); repeat split; lia.
Qed.

Lemma queue_length :
  Z.of_nat (List.length (operationsOf size chunkSize numBlocks)) =
  ceilDiv size chunkSize.
Proof.
  unfold operationsOf. rewrite length_map, length_seq.
  rewrite <- (numBlocks_ceil size chunkSize chunkSize_pos).
  pose proof (numBlocks_pos size chunkSize chunkSize_pos size_pos). lia.
Qed.

Lemma queue_covers :
  contiguousFrom 0 (map chunkOf (operationsOf size chunkSize numBlocks))
  /\ totalLength (map chunkOf (operationsOf size chunkSize numBlocks)) = size.
Proof.
  rewrite chunks_of_queue.
  pose proof (numBlocks_pos size chunkSize chunkSize_pos size_pos) as Hn.
  destruct (Z.to_nat numBlocks) as [|n] eqn:Hnat; [lia|].
  destruct (chunks_from n 0 ltac:(lia)) as [Hcont Hsum].
  rewrite Z.mul_0_r in Hcont. split; [exact Hcont|]. rewrite Hsum. lia.
Qed.

End Geometry.

(** *** Observations *)

Section Traces.

Context {constants : Constants}.

Lemma remoteCallsOf_app (t1 t2 : list Event) :
  remoteCallsOf (t1 ++ t2) = remoteCallsOf t1 ++ remoteCallsOf t2.
Proof. apply flat_map_app. Qed.

Lemma appendsOf_app (t1 t2 : list Event) :
  appendsOf (t1 ++ t2) = appendsOf t1 ++ appendsOf t2.
Proof. apply flat_map_app. Qed.

Lemma poolsOf_app (t1 t2 : list Event) :
  poolsOf (t1 ++ t2) = poolsOf t1 ++ poolsOf t2.
Proof. apply flat_map_app. Qed.

Lemma inFlight_app (t1 t2 : list Event) :
  inFlight (t1 ++ t2) = inFlight t1 + inFlight t2.
Proof.
  unfold inFlight.
  induction t1 as [|ev t1 IH]; [reflexivity|].
  cbn [app fold_right]. rewrite IH. lia.
Qed.

Lemma bounded_app bound t1 : forall n t2,
  bounded n bound t1 ->
  bounded (n + inFlight t1) bound t2 ->
  bounded n bound (t1 ++ t2).
Proof.
  induction t1 as [|ev t1 IH]; intros n t2 H1 H2.
  - cbn in H2. now rewrite Z.add_0_r in H2.
  - destruct H1 as [Hn H1]. split; [exact Hn|].
    apply IH; [exact H1|].
    cbn [inFlight fold_right] in H2.
    now replace (n + weight ev + inFlight t1)
      with (n + (weight ev + inFlight t1)) by lia.
Qed.

(** [bounded] speaks of every moment of the run. *)
Lemma bounded_prefix bound t : forall n p,
  bounded n bound t -> prefixOf p t -> n + inFlight p <= bound.
Proof.
  induction t as [|ev t IH]; intros n p Hb [rest Hrest].
  - destruct p; [|discriminate]. cbn in *. lia.
  - destruct p as [|ev' p].
    + destruct Hb as [Hn _]. cbn. lia.
    + injection Hrest as <- ->. destruct Hb as [_ Hb].
      specialize (IH (n + weight ev) p Hb (ex_intro _ rest eq_refl)).
      cbn [inFlight fold_right]. unfold inFlight in IH. lia.
Qed.

(** Effects that start no append keep the number in flight bounded. *)
Lemma bounded_quiet bound t : forall n,
  Forall (fun ev => weight ev <= 0) t -> n <= bound -> bounded n bound t.
Proof.
  induction t as [|ev t IH]; intros n Hall Hn; [exact Hn|].
  inversion Hall as [|? ? Hev Ht]; subst.
  split; [exact Hn|]. apply IH; [exact Ht|lia].
Qed.

Lemma length_removeAt {A : Type} (l : list A) : forall j,
  (j < List.length l)%nat ->
  List.length (removeAt j l) = (List.length l - 1)%nat.
Proof.
  induction l as [|x l IH]; intros j Hj; [cbn in Hj; lia|].
  destruct j as [|j]; cbn [removeAt List.length] in *; [lia|].
  rewrite IH by lia. lia.
Qed.

End Traces.

(** *** The worker pool *)

Section Pool.

Context {constants : Constants}.
Variable remote : RemoteCall -> Exn + FileUploadResponse.
Variable bodyFactory : Z -> Z -> HttpRequestBody.
Variable options : FileParallelUploadOptions.
Variable choose : list Operation -> nat.
Variable concurrency : Z.

Abbreviation pool := (batchDo remote bodyFactory options choose concurrency).
Abbreviation started_by := (map (begin bodyFactory)).

Lemma batchDo_eq fuel pending actives transferProgress :
  pool fuel pending actives transferProgress =
  let '(pending', actives', started) :=
    dispatch bodyFactory concurrency pending actives in
  match actives' with
  | [] =>
    match pending' with
    | [] => Some (Returned transferProgress, started)
    | _ :: _ => None
    end
  | first :: _ =>
    match fuel with
    | O => None
    | S fuel' =>
      let j := (choose actives' mod List.length actives')%nat in
      let op := nth j actives' first in
      after started
        (transferProgress' <-
           resume remote bodyFactory options op transferProgress ;;
         pool fuel' pending' (removeAt j actives') transferProgress')
    end
  end.
Proof. destruct fuel; reflexivity. Qed.

(** [dispatch] starts the head of the queue, in order, while fewer than
    [concurrency] tasks are in flight. *)
Lemma dispatch_spec pending : forall actives pending' actives' evs,
  dispatch bodyFactory concurrency pending actives =
  (pending', actives', evs) ->
  exists started,
    pending = started ++ pending'
    /\ actives' = actives ++ started
    /\ evs = started_by started
    /\ (started = [] \/ Z.of_nat (List.length actives') <= concurrency)
    /\ (pending' = [] \/ concurrency <= Z.of_nat (List.length actives')).
Proof.
  induction pending as [|op rest IH]; intros actives pending' actives' evs H;
    cbn [dispatch] in H.
  - injection H as <- <- <-. exists []. rewrite !app_nil_r. repeat split; auto.
  - destruct (Z.ltb_spec (Z.of_nat (List.length actives)) concurrency)
      as [Hlt|Hge].
    + destruct (dispatch bodyFactory concurrency rest (actives ++ [op]))
        as [[p a] e] eqn:Hd.
      injection H as <- <- <-.
      destruct (IH _ _ _ _ Hd) as (started & -> & -> & -> & Hs & Hp).
      exists (op :: started).
      assert (Happ : (actives ++ [op]) ++ started = actives ++ op :: started)
        by now rewrite <- app_assoc.
      rewrite Happ in *. repeat split; trivial. right.
      destruct Hs as [-> | Hs]; [|exact Hs].
      rewrite length_app. cbn [List.length]. lia.
    + injection H as <- <- <-. exists []. rewrite !app_nil_r. repeat split; auto.
Qed.

Lemma inFlight_started started :
  inFlight (started_by started) = Z.of_nat (List.length started).
Proof.
  induction started as [|op l IH]; [reflexivity|].
  cbn [map inFlight fold_right List.length begin weight] in *.
  unfold inFlight in IH. rewrite IH. lia.
Qed.

Lemma bounded_started started : forall n,
  n + Z.of_nat (List.length started) <= concurrency ->
  bounded n concurrency (started_by started).
Proof.
  induction started as [|op l IH]; intros n Hn.
  - cbn in *. lia.
  - cbn [map bounded begin weight List.length] in *.
    split; [lia|]. apply IH. lia.
Qed.

Lemma remoteCallsOf_started started :
  remoteCallsOf (started_by started) = map (appendCallOf bodyFactory) started.
Proof.
  induction started as [|op l IH]; [reflexivity|].
  cbn [map remoteCallsOf flat_map app begin] in *.
  unfold remoteCallsOf in IH. now rewrite IH.
Qed.

Lemma poolsOf_started started : poolsOf (started_by started) = [].
Proof. induction started as [|op l IH]; [reflexivity|exact IH]. Qed.

(** What a task does once its append has settled: it starts no call, and
    when it succeeds exactly one call has left the flight. *)
Lemma resume_events op transferProgress o evs :
  resume remote bodyFactory options op transferProgress = Some (o, evs) ->
  Forall (fun ev => weight ev <= 0) evs
  /\ remoteCallsOf evs = []
  /\ poolsOf evs = []
  /\ (forall transferProgress', o = Returned transferProgress' ->
       inFlight evs = -1).
Proof.
  unfold resume.
  destruct (remote _) as [e|r].
  - intros H. injection H as <- <-. repeat split; auto. discriminate.
  - destruct (onProgress options) as [callback|].
    + destruct (callback _) as [e|]; intros H; injection H as <- <-;
        repeat split; auto; try discriminate;
        repeat constructor; cbn; lia.
    + intros H. injection H as <- <-.
      repeat split; auto; repeat constructor; cbn; lia.
Qed.

Lemma resume_settles op transferProgress :
  exists o evs,
    resume remote bodyFactory options op transferProgress = Some (o, evs)
    /\ (accepts remote -> quietCallback options ->
        exists transferProgress', o = Returned transferProgress').
Proof.
  unfold resume.
  destruct (remote _) as [e|r] eqn:Hr.
  - eexists _, _. split; [reflexivity|]. intros Hacc _.
    destruct (Hacc (AppendData (bodyFactory (start op) (contentLength op))
                               (start op) (contentLength op))) as [r Hr'].
    congruence.
  - destruct (onProgress options) as [callback|] eqn:Hcb.
    + destruct (callback _) as [e|] eqn:He;
        eexists _, _; (split; [reflexivity|]); intros _ Hq.
      * rewrite (Hq _ _ Hcb) in He. discriminate.
      * now eexists.
    + eexists _, _. split; [reflexivity|]. intros _ _. now eexists.
Qed.

Lemma choose_in_range (actives : list Operation) :
  actives <> [] ->
  (choose actives mod List.length actives < List.length actives)%nat.
Proof.
  intros Hne. apply Nat.mod_upper_bound.
  destruct actives; [contradiction|discriminate].
Qed.

(** When nothing is in flight after [dispatch], nothing was started. *)
Lemma nothing_started (actives started : list Operation) :
  actives ++ started = [] -> actives = [] /\ started = [].
Proof. apply app_eq_nil. Qed.

(** The effects of the pool: the number of appends in flight never exceeds
    [concurrency]; when the pool resolves, the append requests left in queue
    order, none is still in flight and no other pool was made. *)
Lemma batchDo_trace fuel : forall pending actives transferProgress o t,
  pool fuel pending actives transferProgress = Some (o, t) ->
  Z.of_nat (List.length actives) <= concurrency ->
  bounded (Z.of_nat (List.length actives)) concurrency t
  /\ (forall transferProgress', o = Returned transferProgress' ->
       remoteCallsOf t = map (appendCallOf bodyFactory) pending
       /\ inFlight t = - Z.of_nat (List.length actives)
       /\ poolsOf t = []).
Proof.
  induction fuel as [|fuel IH]; intros pending actives tp o t H Hn;
    rewrite batchDo_eq in H;
    destruct (dispatch bodyFactory concurrency pending actives)
      as [[p' a'] evs] eqn:Hd;
    destruct (dispatch_spec _ _ _ _ _ Hd) as (started & -> & -> & -> & Hs & Hp);
    assert (Hstart : Z.of_nat (List.length actives)
                     + Z.of_nat (List.length started) <= concurrency)
      by (destruct Hs as [-> | Hs];
          [cbn; lia | rewrite length_app in Hs; lia]);
    destruct (actives ++ started) as [|first rest] eqn:Ha.
  - apply nothing_started in Ha. destruct Ha as [-> ->].
    destruct p'; [|discriminate]. injection H as <- <-.
    split; [exact Hn|]. intros _ _. now repeat split.
  - discriminate.
  - apply nothing_started in Ha. destruct Ha as [-> ->].
    destruct p'; [|discriminate]. injection H as <- <-.
    split; [exact Hn|]. intros _ _. now repeat split.
  - cbv zeta in H.
    set (j := (choose (first :: rest) mod List.length (first :: rest))%nat)
      in H.
    assert (Hj : (j < List.length (first :: rest))%nat)
      by (apply choose_in_range; discriminate).
    set (op := nth j (first :: rest) first) in H.
    pose proof (length_removeAt (first :: rest) j Hj) as Hlen.
    assert (Hlen' : Z.of_nat (List.length (first :: rest)) =
                    Z.of_nat (List.length actives)
                    + Z.of_nat (List.length started))
      by (rewrite <- Ha, length_app; lia).
    destruct (resume_settles op tp)
      as (o1 & evs1 & Hr & _).
    rewrite Hr in H.
    destruct (resume_events _ _ _ _ Hr) as (Hw & Hc1 & Hp1 & Hfl).
    destruct o1 as [tp1|e]; cbn [bind] in H.
    + destruct (pool fuel p' (removeAt j (first :: rest)) tp1)
        as [[o2 t2]|] eqn:Hrec; cbn [after] in H; [|discriminate].
      injection H as <- <-.
      specialize (Hfl tp1 eq_refl).
      destruct (IH _ _ _ _ _ Hrec) as [Hb Hret]; [lia|].
      split.
      * apply bounded_app; [now apply bounded_started|].
        rewrite inFlight_started.
        apply bounded_app; [apply bounded_quiet; [exact Hw|lia]|].
        rewrite Hfl.
        replace (Z.of_nat (List.length actives)
                 + Z.of_nat (List.length started) + -1)
          with (Z.of_nat (List.length (removeAt j (first :: rest))))
          by lia.
        exact Hb.
      * intros tp' Ho. destruct (Hret tp' Ho) as (Hc2 & Hf2 & Hp2).
        rewrite !remoteCallsOf_app, !inFlight_app, !poolsOf_app.
        rewrite remoteCallsOf_started, inFlight_started, poolsOf_started.
        rewrite Hc1, Hc2, Hfl, Hf2, Hp1, Hp2, map_app.
        repeat split; trivial. lia.
    + cbn [after] in H. injection H as <- <-.
      split; [|discriminate].
      apply bounded_app; [now apply bounded_started|].
      rewrite inFlight_started. apply bounded_quiet; [exact Hw|lia].
Qed.

(** With room for one task at least, the pool settles once every queued
    task has been given its turn; it resolves when the remote layer accepts
    every call and the callback does not throw. *)
Lemma batchDo_settles fuel : forall pending actives transferProgress,
  1 <= concurrency ->
  (List.length pending + List.length actives <= fuel)%nat ->
  exists o t,
    pool fuel pending actives transferProgress = Some (o, t)
    /\ (accepts remote -> quietCallback options ->
        exists transferProgress', o = Returned transferProgress').
Proof.
  induction fuel as [|fuel IH]; intros pending actives tp Hc Hfuel;
    rewrite batchDo_eq;
    destruct (dispatch bodyFactory concurrency pending actives)
      as [[p' a'] evs] eqn:Hd;
    destruct (dispatch_spec _ _ _ _ _ Hd) as (started & -> & -> & -> & Hs & Hp);
    rewrite length_app in Hfuel;
    destruct (actives ++ started) as [|first rest] eqn:Ha.
  - destruct p' as [|x p']; [|cbn in Hfuel; lia].
    eexists _, _. split; [reflexivity|]. intros _ _. now eexists.
  - apply (f_equal (@List.length _)) in Ha. rewrite length_app in Ha.
    cbn in Ha. lia.
  - destruct Hp as [-> | Hp]; [|cbn in Hp; lia].
    eexists _, _. split; [reflexivity|]. intros _ _. now eexists.
  - cbv zeta.
    set (j := (choose (first :: rest) mod List.length (first :: rest))%nat).
    assert (Hj : (j < List.length (first :: rest))%nat)
      by (apply choose_in_range; discriminate).
    set (op := nth j (first :: rest) first).
    pose proof (length_removeAt (first :: rest) j Hj) as Hlen.
    apply (f_equal (@List.length _)) in Ha. rewrite length_app in Ha.
    destruct (resume_settles op tp)
      as (o1 & evs1 & Hr & Hok).
    rewrite Hr. destruct o1 as [tp1|e]; cbn [bind].
    + destruct (IH p' (removeAt j (first :: rest)) tp1 Hc) as (o2 & t2 & Hrec & Hok2);
        [lia|].
      rewrite Hrec. cbn [after]. eexists _, _. split; [reflexivity|].
      exact Hok2.
    + cbn [after]. eexists _, _. split; [reflexivity|]. exact Hok.
Qed.

End Pool.

(** *** The upload *)

Section Engine.

Context {constants : Constants}.
Variable remote : RemoteCall -> Exn + FileUploadResponse.
Variable bodyFactory : Z -> Z -> HttpRequestBody.
Variable choose : list Operation -> nat.

Abbreviation upload := (uploadSeekableInternal remote bodyFactory choose).

Lemma appendsOf_started (ops : list Operation) :
  appendsOf (map (fun op => Issued (appendCallOf bodyFactory op)) ops) =
  map chunkOf ops.
Proof.
  induction ops as [|op ops IH]; [reflexivity|].
  cbn [map appendsOf flat_map app appendCallOf] in *.
  unfold appendsOf in IH. now rewrite IH.
Qed.

(** The append requests of a run can be read off its remote calls. *)
Lemma appendsOf_calls (t : list Event) :
  appendsOf t = appendsOf (map Issued (remoteCallsOf t)).
Proof.
  induction t as [|ev t IH]; [reflexivity|].
  change (ev :: t) with ([ev] ++ t).
  rewrite appendsOf_app, remoteCallsOf_app, map_app, appendsOf_app, <- IH.
  f_equal. destruct ev as [[| |]| | |]; reflexivity.
Qed.

(** Past the four range checks, what is left of the upload. *)
Lemma upload_checked size options createRes :
  size <= FILE_MAX_SIZE_BYTES ->
  size <> 0 ->
  remote Create = inr createRes ->
  validOptions size options ->
  upload size options =
  after [Issued Create]
    (if size <=? resolveSingleUploadThreshold options
     then
       _ <- append remote (bodyFactory 0 size) 0 size ;;
       flush remote size
     else
       let chunkSize := resolveChunkSize size options in
       let numBlocks := numBlocksOf size chunkSize in
       if numBlocks >? BLOCK_BLOB_MAX_BLOCKS
       then throw (RangeError TooManyBlocks)
       else
         _ <- emit (NewBatch (resolveMaxConcurrency options)) ;;
         let operations := operationsOf size chunkSize numBlocks in
         _ <- batchDo remote bodyFactory options choose
                      (resolveMaxConcurrency options)
                      (List.length operations) operations [] 0 ;;
         flush remote size).
Proof.
  intros Hmax Hne Hcreate (Hchunk & Hconc & Hthr).
  unfold uploadSeekableInternal, create, call.
  replace (size >? FILE_MAX_SIZE_BYTES) with false
    by (symmetry; rewrite Z.gtb_ltb; apply Z.ltb_ge; lia).
  rewrite Hcreate. cbn [bind].
  replace (size =? 0) with false by (symmetry; apply Z.eqb_neq; exact Hne).
  replace (resolveChunkSize size options <? 1) with false
    by (symmetry; apply Z.ltb_ge; lia).
  replace (resolveChunkSize size options >? FILE_UPLOAD_MAX_CHUNK_SIZE)
    with false by (symmetry; rewrite Z.gtb_ltb; apply Z.ltb_ge; lia).
  replace (resolveMaxConcurrency options <=? 0) with false
    by (symmetry; apply Z.leb_gt; lia).
  replace (resolveSingleUploadThreshold options <? 1) with false
    by (symmetry; apply Z.ltb_ge; lia).
  replace (resolveSingleUploadThreshold options
           >? FILE_MAX_SINGLE_UPLOAD_THRESHOLD)
    with false by (symmetry; rewrite Z.gtb_ltb; apply Z.ltb_ge; lia).
  reflexivity.
Qed.

(** C7. An upload of [0 < size <= singleUploadThreshold] (resolved) that
    passes the checks, on a remote layer that accepts the calls, makes the
    create call, then exactly one append call, at offset 0 and of length
    [size], on the body for the whole payload, and once it has resolved
    exactly one flush call at position [size]; it returns the flush response
    and constructs no worker pool. *)
Theorem single_shot_upload size options :
  size <= FILE_MAX_SIZE_BYTES ->
  0 < size <= resolveSingleUploadThreshold options ->
  validOptions size options ->
  accepts remote ->
  exists response t,
    upload size options = Some (Returned response, t)
    /\ remote (FlushData size) = inr response
    /\ t = [Issued Create;
            Issued (AppendData (bodyFactory 0 size) 0 size);
            AppendCompleted 0 size;
            Issued (FlushData size)]
    /\ appendsOf t = [(0, size)]
    /\ poolsOf t = [].
Proof.
  intros Hmax [Hpos Hle] Hvalid Hacc.
  destruct (Hacc Create) as [createRes Hcreate].
  destruct (Hacc (AppendData (bodyFactory 0 size) 0 size)) as [ack Hack].
  destruct (Hacc (FlushData size)) as [response Hflush].
  exists response. eexists. split; [|split; [exact Hflush|]].
  - rewrite (upload_checked size options createRes); trivial; [|lia].
    replace (size <=? resolveSingleUploadThreshold options) with true
      by (symmetry; apply Z.leb_le; exact Hle).
    unfold append, flush, call. rewrite Hack, Hflush. reflexivity.
  - repeat split.
Qed.

(** C8. An upload of size 0 makes the create call and no other remote
    call: no append, no flush.  It settles as the create call does and
    returns the create response. *)
Theorem empty_upload_only_creates options :
  0 <= FILE_MAX_SIZE_BYTES ->
  exists o t,
    upload 0 options = Some (o, t)
    /\ remoteCallsOf t = [Create]
    /\ appendsOf t = []
    /\ poolsOf t = []
    /\ (forall createRes, remote Create = inr createRes ->
        o = Returned createRes).
Proof.
  intros Hmax. unfold uploadSeekableInternal, create, call.
  replace (0 >? FILE_MAX_SIZE_BYTES) with false
    by (symmetry; rewrite Z.gtb_ltb; apply Z.ltb_ge; lia).
  destruct (remote Create) as [e|createRes]; cbn [bind Z.eqb after ret app];
    eexists _, _; (split; [reflexivity|]); repeat split;
    intros r Hr; congruence.
Qed.

(** The run of an upload above the single-upload threshold that passes the
    checks. *)
Lemma chunked_run size options :
  size <= FILE_MAX_SIZE_BYTES ->
  validOptions size options ->
  resolveSingleUploadThreshold options < size ->
  numBlocksOf size (resolveChunkSize size options) <= BLOCK_BLOB_MAX_BLOCKS ->
  accepts remote ->
  quietCallback options ->
  exists response t1,
    upload size options =
    Some (Returned response,
          [Issued Create; NewBatch (resolveMaxConcurrency options)]
          ++ t1 ++ [Issued (FlushData size)])
    /\ remote (FlushData size) = inr response
    /\ remoteCallsOf t1 =
       map (appendCallOf bodyFactory)
           (operationsOf size (resolveChunkSize size options)
              (numBlocksOf size (resolveChunkSize size options)))
    /\ inFlight t1 = 0
    /\ poolsOf t1 = [].
Proof.
  intros Hmax Hvalid Hthr Hblocks Hacc Hq.
  pose proof Hvalid as (Hchunk & Hconc & Hrange).
  destruct (Hacc Create) as [createRes Hcreate].
  destruct (Hacc (FlushData size)) as [response Hflush].
  rewrite (upload_checked size options createRes); trivial; [|lia].
  replace (size <=? resolveSingleUploadThreshold options) with false
    by (symmetry; apply Z.leb_gt; exact Hthr).
  cbv zeta.
  replace (numBlocksOf size (resolveChunkSize size options)
           >? BLOCK_BLOB_MAX_BLOCKS)
    with false by (symmetry; rewrite Z.gtb_ltb; apply Z.ltb_ge; lia).
  set (ops := operationsOf size (resolveChunkSize size options)
                (numBlocksOf size (resolveChunkSize size options))).
  destruct (batchDo_settles remote bodyFactory options choose
              (resolveMaxConcurrency options) (List.length ops) ops [] 0)
    as (o & t1 & Hrun & Hok); [lia|cbn; lia|].
  destruct (Hok Hacc Hq) as [tp ->].
  destruct (batchDo_trace _ _ _ _ _ _ _ _ _ _ _ Hrun) as [_ Hret];
    [cbn; lia|].
  destruct (Hret tp eq_refl) as (Hcalls & Hfl & Hpools).
  exists response, t1. split; [|now repeat split].
  unfold emit, flush, call. cbn [bind after]. rewrite Hrun, Hflush.
  reflexivity.
Qed.

(** C3. An upload above the resolved single-upload threshold that passes
    the checks, on a remote layer that accepts the calls, makes
    [ceil (size / C)] append calls, [C] being the resolved chunk size; they
    leave in chunk order, whatever the order in which they settle.  The
    chunks follow one another from offset 0 without gap or overlap; the one
    numbered [i] starts at [C * i]; each has [C] bytes but the last, which
    has [size - (ceil (size / C) - 1) * C]; their lengths add up to [size].
    Once every append has settled, one flush call is made, at position
    [size], the last remote call of the run. *)
Theorem chunked_upload size options :
  size <= FILE_MAX_SIZE_BYTES ->
  validOptions size options ->
  resolveSingleUploadThreshold options < size ->
  numBlocksOf size (resolveChunkSize size options) <= BLOCK_BLOB_MAX_BLOCKS ->
  accepts remote ->
  quietCallback options ->
  let C := resolveChunkSize size options in
  exists response t,
    upload size options = Some (Returned response, t)
    /\ remote (FlushData size) = inr response
    /\ Z.of_nat (List.length (appendsOf t)) = ceilDiv size C
    /\ contiguousFrom 0 (appendsOf t)
    /\ (forall i position length,
        nth_error (appendsOf t) i = Some (position, length) ->
        position = C * Z.of_nat i
        /\ (Z.of_nat i < ceilDiv size C - 1 -> length = C)
        /\ (Z.of_nat i = ceilDiv size C - 1 ->
            length = size - (ceilDiv size C - 1) * C))
    /\ totalLength (appendsOf t) = size
    /\ remoteCallsOf t =
       Create
       :: map (fun chunk => AppendData (bodyFactory (fst chunk) (snd chunk))
                                       (fst chunk) (snd chunk))
              (appendsOf t)
       ++ [FlushData size]
    /\ (exists t0, t = t0 ++ [Issued (FlushData size)] /\ inFlight t0 = 0).
Proof.
  intros Hmax Hvalid Hthr Hblocks Hacc Hq C.
  pose proof Hvalid as (Hchunk & Hconc & Hrange).
  assert (HC : 0 < C) by (unfold C; lia).
  assert (Hsize : 0 < size) by lia.
  destruct (chunked_run size options) as
    (response & t1 & Hrun & Hflush & Hcalls & Hfl & Hpools); trivial.
  fold C in Hcalls.
  set (ops := operationsOf size C (numBlocksOf size C)) in *.
  set (t := [Issued Create; NewBatch (resolveMaxConcurrency options)]
            ++ t1 ++ [Issued (FlushData size)]) in *.
  assert (Hrc : remoteCallsOf t =
                Create :: map (appendCallOf bodyFactory) ops
                ++ [FlushData size]).
  { unfold t. rewrite !remoteCallsOf_app, Hcalls. reflexivity. }
  assert (Happ : appendsOf t = map chunkOf ops).
  { rewrite appendsOf_calls, Hrc. cbn [map].
    change (Issued Create :: ?l) with ([Issued Create] ++ l).
    rewrite map_app, !appendsOf_app, map_map, appendsOf_started.
    cbn. apply app_nil_r. }
  exists response, t. split; [exact Hrun|]. split; [exact Hflush|].
  rewrite Happ. unfold ops.
  rewrite <- (numBlocks_ceil size C HC).
  split; [|split; [|split; [|split; [|split]]]].
  - rewrite length_map, (queue_length size C HC Hsize).
    symmetry. now apply numBlocks_ceil.
  - now apply queue_covers.
  - intros i position length Hi. now apply chunk_at.
  - now apply queue_covers.
  - rewrite Hrc, map_map. reflexivity.
  - exists ([Issued Create; NewBatch (resolveMaxConcurrency options)] ++ t1).
    split; [unfold t; now rewrite <- app_assoc|].
    rewrite inFlight_app, Hfl. reflexivity.
Qed.

(** Every upload settles, and the number of append calls in flight stays
    within the resolved [maxConcurrency] all along its effects. *)
Lemma upload_bounded size options :
  0 < resolveMaxConcurrency options ->
  exists o t,
    upload size options = Some (o, t)
    /\ bounded 0 (resolveMaxConcurrency options) t.
Proof.
  intros Hconc.
  unfold uploadSeekableInternal, create, call.
  destruct (size >? FILE_MAX_SIZE_BYTES);
    [eexists _, _; split; [reflexivity|cbn; lia]|].
  destruct (remote Create) as [e|createRes];
    [eexists _, _; split; [reflexivity|cbn; lia]|].
  cbn [bind].
  destruct (size =? 0);
    [eexists _, _; split; [reflexivity|cbn; lia]|].
  destruct ((resolveChunkSize size options <? 1)
            || (resolveChunkSize size options >? FILE_UPLOAD_MAX_CHUNK_SIZE));
    [eexists _, _; split; [reflexivity|cbn; lia]|].
  destruct (resolveMaxConcurrency options <=? 0);
    [eexists _, _; split; [reflexivity|cbn; lia]|].
  destruct ((resolveSingleUploadThreshold options <? 1)
            || (resolveSingleUploadThreshold options
                >? FILE_MAX_SINGLE_UPLOAD_THRESHOLD));
    [eexists _, _; split; [reflexivity|cbn; lia]|].
  destruct (size <=? resolveSingleUploadThreshold options).
  - unfold append, flush, call.
    destruct (remote (AppendData (bodyFactory 0 size) 0 size)) as [e|ack];
      [eexists _, _; split; [reflexivity|cbn; lia]|].
    cbn [bind emit after app].
    destruct (remote (FlushData size)) as [e|response];
      eexists _, _; (split; [reflexivity|cbn; lia]).
  - cbv zeta.
    destruct (numBlocksOf size (resolveChunkSize size options)
              >? BLOCK_BLOB_MAX_BLOCKS);
      [eexists _, _; split; [reflexivity|cbn; lia]|].
    set (ops := operationsOf size (resolveChunkSize size options)
                  (numBlocksOf size (resolveChunkSize size options))).
    destruct (batchDo_settles remote bodyFactory options choose
                (resolveMaxConcurrency options) (List.length ops) ops [] 0)
      as (o & t1 & Hrun & _); [lia|cbn; lia|].
    destruct (batchDo_trace _ _ _ _ _ _ _ _ _ _ _ Hrun) as [Hb Hret];
      [cbn; lia|].
    cbn [List.length Z.of_nat] in Hb.
    unfold emit, flush, call. cbn [bind after]. rewrite Hrun.
    destruct o as [tp|e]; cbn [bind after].
    + destruct (Hret tp eq_refl) as (_ & Hfl & _). cbn in Hfl.
      destruct (remote (FlushData size)) as [e|response];
        eexists _, _; (split; [reflexivity|]);
        (apply (bounded_app _ [Issued Create]); [cbn; lia|]);
        (apply (bounded_app _ [NewBatch _]); [cbn; lia|]);
        (apply bounded_app; [exact Hb|]); cbn; lia.
    + eexists _, _. split; [reflexivity|].
      apply (bounded_app _ [Issued Create]); [cbn; lia|].
      apply (bounded_app _ [NewBatch _]); [cbn; lia|].
      exact Hb.
Qed.

(** C9. With a positive resolved [maxConcurrency], every upload settles
    and at no moment of it, whatever the order in which the appends settle
    and whether they succeed or not, are more than [maxConcurrency] append
    calls in flight: after any initial part of the effects, the append
    requests that have left outnumber the appends that have resolved by at
    most [maxConcurrency]. *)
Theorem appends_in_flight_bounded size options :
  0 < resolveMaxConcurrency options ->
  exists o t,
    upload size options = Some (o, t)
    /\ forall p, prefixOf p t ->
       inFlight p <= resolveMaxConcurrency options.
Proof.
  intros Hconc.
  destruct (upload_bounded size options Hconc) as (o & t & Hrun & Hb).
  exists o, t. split; [exact Hrun|]. intros p Hp.
  pose proof (bounded_prefix _ _ _ _ Hb Hp). lia.
Qed.

(** C4, as the code has it.  Only the size check comes before every remote
    call: a size above the hard maximum is refused with no effect at all.
    The other checks come after the create call and only for a payload that
    is not empty: once create has succeeded, the upload is refused with a
    range error, create being its one remote call, when the resolved chunk
    size is outside [[1, FILE_UPLOAD_MAX_CHUNK_SIZE]], when the resolved
    [maxConcurrency] is not positive, or when the size is above the resolved
    single-upload threshold and the chunk count above
    [BLOCK_BLOB_MAX_BLOCKS].  An unset (or zero) chunk size resolves to the
    larger of the default chunk size and [ceil (size / BLOCK_BLOB_MAX_BLOCKS)]. *)
Theorem checks_follow_create size options :
  (FILE_MAX_SIZE_BYTES < size ->
   upload size options = Some (Thrown (RangeError SizeTooBig), []))
  /\ (forall createRes,
      size <= FILE_MAX_SIZE_BYTES ->
      size <> 0 ->
      remote Create = inr createRes ->
      ~ (1 <= resolveChunkSize size options <= FILE_UPLOAD_MAX_CHUNK_SIZE)
      \/ resolveMaxConcurrency options <= 0
      \/ (resolveSingleUploadThreshold options < size
          /\ BLOCK_BLOB_MAX_BLOCKS
             < numBlocksOf size (resolveChunkSize size options)) ->
      exists reason,
        upload size options =
        Some (Thrown (RangeError reason), [Issued Create]))
  /\ (falsyNumber (chunkSize options) = true ->
      resolveChunkSize size options =
      Z.max FILE_UPLOAD_DEFAULT_CHUNK_SIZE
            (ceilDiv size BLOCK_BLOB_MAX_BLOCKS)).
Proof.
  split; [|split].
  - intros Hbig. unfold uploadSeekableInternal.
    replace (size >? FILE_MAX_SIZE_BYTES) with true
      by (symmetry; rewrite Z.gtb_ltb; apply Z.ltb_lt; lia).
    reflexivity.
  - intros createRes Hmax Hne Hcreate Hbad.
    unfold uploadSeekableInternal, create, call.
    replace (size >? FILE_MAX_SIZE_BYTES) with false
      by (symmetry; rewrite Z.gtb_ltb; apply Z.ltb_ge; lia).
    rewrite Hcreate. cbn [bind].
    replace (size =? 0) with false by (symmetry; apply Z.eqb_neq; exact Hne).
    destruct (Z.ltb_spec (resolveChunkSize size options) 1) as [Hc1|Hc1];
      [now eexists|].
    rewrite Z.gtb_ltb.
    destruct (Z.ltb_spec FILE_UPLOAD_MAX_CHUNK_SIZE
                         (resolveChunkSize size options)) as [Hc2|Hc2];
      [now eexists|].
    cbn [orb].
    destruct (Z.leb_spec (resolveMaxConcurrency options) 0) as [Hn|Hn];
      [now eexists|].
    destruct ((resolveSingleUploadThreshold options <? 1)
              || (resolveSingleUploadThreshold options
                  >? FILE_MAX_SINGLE_UPLOAD_THRESHOLD));
      [now eexists|].
    destruct Hbad as [Hbad | [Hbad | [Hthr Hblocks]]]; [lia|lia|].
    replace (size <=? resolveSingleUploadThreshold options) with false
      by (symmetry; apply Z.leb_gt; exact Hthr).
    cbv zeta.
    replace (numBlocksOf size (resolveChunkSize size options)
             >? BLOCK_BLOB_MAX_BLOCKS)
      with true by (symmetry; rewrite Z.gtb_ltb; apply Z.ltb_lt; lia).
    now eexists.
  - intros Hunset. unfold resolveChunkSize. rewrite Hunset.
    destruct (Z.ltb_spec (ceilDiv size BLOCK_BLOB_MAX_BLOCKS)
                         FILE_UPLOAD_DEFAULT_CHUNK_SIZE); lia.
Qed.

End Engine.

(** *** The sample service *)

#[local] Existing Instance sampleConstants.

Lemma sampleRemote_accepts : accepts sampleRemote.
Proof. intros [| |]; eexists; reflexivity. Defined.

Lemma sampleOptions_quiet a b c : quietCallback (sampleOptions a b c).
Proof. intros callback n H. injection H as <-. reflexivity. Defined.

(** 10,000,000 bytes in chunks of 4,000,000 with three appends at a time:
    three appends, of 4,000,000, 4,000,000 and 2,000,000 bytes, then the
    flush at 10,000,000. *)
Lemma chunked_upload_witness :
  exists response t,
    uploadSeekableInternal sampleRemote sampleBodyFactory newestFirst 10000000
      (sampleOptions (Some 4000000) (Some 3) (Some 1000000)) =
    Some (Returned response, t)
    /\ appendsOf t = [(0, 4000000); (4000000, 4000000); (8000000, 2000000)]
    /\ Z.of_nat (List.length (appendsOf t)) = 3
    /\ totalLength (appendsOf t) = 10000000
    /\ last (remoteCallsOf t) Create = FlushData 10000000.
Proof.
  destruct (chunked_upload sampleRemote sampleBodyFactory newestFirst 10000000
              (sampleOptions (Some 4000000) (Some 3) (Some 1000000)))
    as (response & t & Hrun & _ & Hlen & _ & _ & Htotal & _ & _).
  - vm_compute. discriminate.
  - unfold validOptions. vm_compute. repeat split; discriminate.
  - vm_compute. reflexivity.
  - vm_compute. discriminate.
  - exact sampleRemote_accepts.
  - apply sampleOptions_quiet.
  - exists response, t. split; [exact Hrun|].
    vm_compute in Hrun. injection Hrun as <- <-.
    repeat split.
Defined.

(** Ten bytes under the default threshold: one append of the ten bytes,
    then the flush. *)
Lemma single_shot_witness :
  exists response t,
    uploadSeekableInternal sampleRemote sampleBodyFactory newestFirst 10
      (sampleOptions None None None) = Some (Returned response, t)
    /\ sampleRemote (FlushData 10) = inr response
    /\ t = [Issued Create;
            Issued (AppendData (sampleBodyFactory 0 10) 0 10);
            AppendCompleted 0 10;
            Issued (FlushData 10)]
    /\ appendsOf t = [(0, 10)]
    /\ poolsOf t = [].
Proof.
  apply (single_shot_upload sampleRemote sampleBodyFactory newestFirst 10
           (sampleOptions None None None)).
  - vm_compute. discriminate.
  - vm_compute. split; [reflexivity|discriminate].
  - unfold validOptions. vm_compute. repeat split; discriminate.
  - exact sampleRemote_accepts.
Defined.

(** An empty payload: the create call and nothing else. *)
Lemma empty_upload_witness :
  exists o t,
    uploadSeekableInternal sampleRemote sampleBodyFactory newestFirst 0
      (sampleOptions None None None) = Some (o, t)
    /\ remoteCallsOf t = [Create]
    /\ appendsOf t = []
    /\ poolsOf t = []
    /\ (forall createRes, sampleRemote Create = inr createRes ->
        o = Returned createRes).
Proof.
  apply (empty_upload_only_creates sampleRemote sampleBodyFactory newestFirst
           (sampleOptions None None None)).
  vm_compute. discriminate.
Defined.

(** The upload of 10,000,000 bytes never has more than three appends in
    flight. *)
Lemma appends_in_flight_witness :
  exists o t,
    uploadSeekableInternal sampleRemote sampleBodyFactory newestFirst 10000000
      (sampleOptions (Some 4000000) (Some 3) (Some 1000000)) = Some (o, t)
    /\ forall p, prefixOf p t -> inFlight p <= 3.
Proof.
  apply (appends_in_flight_bounded sampleRemote sampleBodyFactory newestFirst
           10000000 (sampleOptions (Some 4000000) (Some 3) (Some 1000000))).
  vm_compute. reflexivity.
Defined.

(** C4 as stated fails: with [chunkSize = -1] the upload of ten bytes is
    refused for its chunk size, and yet the create call has been made. *)
Lemma checks_before_calls_counterexample :
  resolveChunkSize 10 (sampleOptions (Some (-1)) None None) = -1
  /\ exists t,
      uploadSeekableInternal sampleRemote sampleBodyFactory newestFirst 10
        (sampleOptions (Some (-1)) None None) =
      Some (Thrown (RangeError ChunkSizeOutOfRange), t)
      /\ remoteCallsOf t = [Create].
Proof. split; [reflexivity|]. eexists. split; reflexivity. Qed.

(** The same upload, seen through [checks_follow_create]. *)
Lemma checks_follow_create_witness :
  exists reason,
    uploadSeekableInternal sampleRemote sampleBodyFactory newestFirst 10
      (sampleOptions (Some (-1)) None None) =
    Some (Thrown (RangeError reason), [Issued Create]).
Proof.
  apply (proj1 (proj2 (checks_follow_create sampleRemote sampleBodyFactory
                         newestFirst 10 (sampleOptions (Some (-1)) None None)))
           "created"%string).
  - vm_compute. discriminate.
  - discriminate.
  - reflexivity.
  - left. vm_compute. intros [H _]. apply H. reflexivity.
Defined.

(** [maxConcurrency = 0] counts as unset: the default is taken and the
    upload goes through. *)
Lemma zero_concurrency_is_default :
  resolveMaxConcurrency (sampleOptions None (Some 0) None) =
  @DEFAULT_HIGH_LEVEL_CONCURRENCY sampleConstants
  /\ uploadSeekableInternal sampleRemote sampleBodyFactory newestFirst 10
       (sampleOptions None (Some 0) None) =
     Some (Returned "flushed"%string,
           [Issued Create; Issued (AppendData (0, 10) 0 10);
            AppendCompleted 0 10; Issued (FlushData 10)]).
Proof. split; reflexivity. Qed.

(** For an empty payload no option is checked. *)
Lemma empty_upload_skips_checks :
  uploadSeekableInternal sampleRemote sampleBodyFactory newestFirst 0
    (sampleOptions (Some (-1)) (Some (-1)) (Some (-1))) =
  Some (Returned "created"%string, [Issued Create]).
Proof. reflexivity. Qed.

End UploadProofs.

(** ** Recursive ACL change: every run, and resumed runs *)

Module ResumptionProofs.

Import Acl Resumption AclProofs.

Section AnyRun.

Context {transforms : Transforms}.
Variable server : nat -> Exn + PathSetAccessControlRecursiveResponse.
Variable mode : PathSetAccessControlRecursiveMode.
Variable acl : PathAccessControlItems.
Variable options : PathChangeAccessControlRecursiveOptions.

Abbreviation loop := (batchLoop server mode acl options).
Abbreviation sent := (request mode acl options).

(** What holds of the loop whatever the service answers and whatever the
    callback does. *)
Lemma loop_shape fuel : forall token k result o t,
  loop fuel token k result = Some (o, t) ->
  (exists tokens,
     requestsOf t = map sent (token :: tokens)
     /\ Forall (fun c => truthyString c = true) tokens)
  /\ (forall m, maxBatches options = Some m -> Z.of_nat k < m ->
      Z.of_nat (List.length (requestsOf t)) <= m - Z.of_nat k).
Proof.
  induction fuel as [|fuel IH]; intros token k result o t H; [discriminate|].
  cbn [batchLoop] in H.
  assert (Hone : forall evs : list Event,
            requestsOf evs = [] ->
            (exists tokens,
               requestsOf (RemoteCall (sent token) :: evs) =
               map sent (token :: tokens)
               /\ Forall (fun c => truthyString c = true) tokens)
            /\ (forall m, maxBatches options = Some m -> Z.of_nat k < m ->
                Z.of_nat (List.length
                            (requestsOf (RemoteCall (sent token) :: evs)))
                <= m - Z.of_nat k)).
  { intros evs Hevs. split.
    - exists []. split; [|constructor].
      change (RemoteCall (sent token) :: evs)
        with ([RemoteCall (sent token)] ++ evs).
      now rewrite requestsOf_app, Hevs.
    - intros m _ Hk.
      change (RemoteCall (sent token) :: evs)
        with ([RemoteCall (sent token)] ++ evs).
      rewrite requestsOf_app, Hevs. cbn. lia. }
  destruct (server k) as [e|x]; [injection H as <- <-; now apply Hone|].
  assert (Hgo : forall evs r,
            requestsOf evs = [] ->
            after (RemoteCall (sent token) :: evs)
              (if truthyString (continuation x)
                  && negb (reachMaxBatchesOf options (S k))
               then loop fuel (continuation x) (S k) (updateResult result x)
               else Some (Returned (updateResult result x), [])) = r ->
            r = Some (o, t) ->
            (exists tokens,
               requestsOf t = map sent (token :: tokens)
               /\ Forall (fun c => truthyString c = true) tokens)
            /\ (forall m, maxBatches options = Some m -> Z.of_nat k < m ->
                Z.of_nat (List.length (requestsOf t)) <= m - Z.of_nat k)).
  { intros evs r Hevs Hr Hrun. subst r.
    destruct (truthyString (continuation x)) eqn:Htok; cbn [andb] in Hrun.
    - destruct (reachMaxBatchesOf options (S k)) eqn:Hcap; cbn [negb] in Hrun.
      + cbn [after] in Hrun. injection Hrun as <- <-.
        rewrite app_nil_r. now apply Hone.
      + destruct (loop fuel (continuation x) (S k) (updateResult result x))
          as [[o' t']|] eqn:Hrec; cbn [after] in Hrun; [|discriminate].
        injection Hrun as <- <-.
        destruct (IH _ _ _ _ _ Hrec) as [(tokens & Hreq & Hall) Hbound].
        change (RemoteCall (sent token) :: evs ++ t')
          with ([RemoteCall (sent token)] ++ evs ++ t').
        rewrite !requestsOf_app, Hevs, Hreq. split.
        * exists (continuation x :: tokens). split; [reflexivity|].
          now constructor.
        * intros m Hm Hk. cbn [app requestsOf flat_map List.length].
          unfold reachMaxBatchesOf in Hcap. rewrite Hm, Z.geb_leb in Hcap.
          apply Z.leb_gt in Hcap.
          specialize (Hbound m Hm Hcap).
          rewrite Hreq in Hbound. cbn [List.length app] in *. lia.
    - cbn [after] in Hrun. injection Hrun as <- <-.
      rewrite app_nil_r. now apply Hone. }
  destruct (onProgress options) as [callback|].
  - destruct (callback _) as [e|].
    + injection H as <- <-. now apply Hone.
    + eapply Hgo; [|reflexivity|exact H]. reflexivity.
  - eapply (Hgo []); [reflexivity|reflexivity|exact H].
Qed.

(** X1. With [maxBatches] supplied, a run never makes more than
    [maxBatches] remote calls, whatever the service answers and whatever the
    callback does. *)
Theorem calls_never_exceed_maxBatches fuel m o t :
  maxBatches options = Some m ->
  0 <= m ->
  setAccessControlRecursiveInternal server mode acl options fuel =
  Some (o, t) ->
  Z.of_nat (List.length (requestsOf t)) <= m.
Proof.
  intros Hm Hpos H. unfold setAccessControlRecursiveInternal in H.
  destruct (tooSmall (maxBatches options)) eqn:Hmb;
    [injection H as <- <-; cbn; lia|].
  destruct (tooSmall (batchSize options));
    [injection H as <- <-; cbn; lia|].
  destruct (loop_shape _ _ _ _ _ _ H) as [_ Hbound].
  rewrite Hm in Hmb. cbn in Hmb. apply Z.ltb_ge in Hmb.
  specialize (Hbound m Hm). cbn in Hbound. lia.
Qed.

(** X2. In every run the first call is sent with the token of the options
    and every later call with a token that is neither absent nor empty;
    all calls carry the same mode, ACL string, batch size and force flag. *)
Theorem later_calls_carry_a_token fuel o t :
  setAccessControlRecursiveInternal server mode acl options fuel =
  Some (o, t) ->
  requestsOf t = []
  \/ exists tokens,
       requestsOf t = map sent (optContinuationToken options :: tokens)
       /\ Forall (fun c => truthyString c = true) tokens.
Proof.
  intros H. unfold setAccessControlRecursiveInternal in H.
  destruct (tooSmall (maxBatches options));
    [injection H as <- <-; now left|].
  destruct (tooSmall (batchSize options));
    [injection H as <- <-; now left|].
  right. now destruct (loop_shape _ _ _ _ _ _ H) as [Hreq _].
Qed.

End AnyRun.

Lemma calls_bound_witness :
  Z.of_nat (List.length
    (requestsOf
       [RemoteCall (request set sampleAcl
                      (sampleOptions None (Some 1) None) None);
        ProgressCall (progressOf (sumCounters [responseA]) responseA)]))
  <= 1.
Proof.
  apply (calls_never_exceed_maxBatches serviceThreeBatches set sampleAcl
           (sampleOptions None (Some 1) None) 5 1
           (Returned (updateResult emptyResult responseA))).
  - reflexivity.
  - lia.
  - reflexivity.
Defined.

Lemma later_calls_witness :
  requestsOf
    [RemoteCall (request set sampleAcl (sampleOptions None None None) None);
     ProgressCall (progressOf (sumCounters [responseA]) responseA);
     RemoteCall (request set sampleAcl (sampleOptions None None None)
                   (Some "A"%string));
     ProgressCall (progressOf (sumCounters [responseA; responseEnd])
                     responseEnd)] = []
  \/ exists tokens,
       requestsOf
         [RemoteCall (request set sampleAcl (sampleOptions None None None)
                        None);
          ProgressCall (progressOf (sumCounters [responseA]) responseA);
          RemoteCall (request set sampleAcl (sampleOptions None None None)
                        (Some "A"%string));
          ProgressCall (progressOf (sumCounters [responseA; responseEnd])
                          responseEnd)] =
       map (request set sampleAcl (sampleOptions None None None))
           (None :: tokens)
       /\ Forall (fun c => truthyString c = true) tokens.
Proof.
  apply (later_calls_carry_a_token serviceAThenEnd set sampleAcl
           (sampleOptions None None None) 5
           (Returned (updateResult (updateResult emptyResult responseA)
                        responseEnd))).
  reflexivity.
Defined.

Section Resumed.

Context {transforms : Transforms}.
Variable server : nat -> Exn + PathSetAccessControlRecursiveResponse.
Variable mode : PathSetAccessControlRecursiveMode.
Variable acl : PathAccessControlItems.
Variable options : PathChangeAccessControlRecursiveOptions.

Lemma answers_afterCalls rs : forall n k,
  answers server (n + k) rs -> answers (afterCalls n server) k rs.
Proof.
  induction rs as [|x rest IH]; intros n k H; [exact I|].
  destruct H as [Hx Hrest]. split; [exact Hx|].
  apply IH. now replace (n + S k)%nat with (S (n + k)) by lia.
Qed.

Lemma fold_addBatch rs : forall c,
  fold_left addBatch rs c = addCounters c (sumCounters rs).
Proof.
  intros c.
  destruct (sumCounters_fields rs c) as (H1 & H2 & H3).
  destruct (sumCounters_fields rs zeroCounters) as (Z1 & Z2 & Z3).
  unfold sumCounters, addCounters. rewrite Z1, Z2, Z3.
  destruct (fold_left addBatch rs c) as [f d g]. cbn in *.
  now rewrite H1, H2, H3.
Qed.

(** The callback throws on the event of the batch [r], after the batches
    [rs] went through. *)
Lemma loop_callback_throws callback r e rs : forall token k result fuel,
  onProgress options = Some callback ->
  keepsGoing server options k rs ->
  quietOn callback (counters result) rs ->
  server (k + List.length rs)%nat = inr r ->
  callback (progressOf (addBatch (fold_left addBatch rs (counters result)) r)
                       r) = Some e ->
  (List.length rs < fuel)%nat ->
  exists t,
    batchLoop server mode acl options fuel token k result =
    Some (Thrown e, t)
    /\ List.length (requestsOf t) = S (List.length rs)
    /\ List.length (progressesOf t) = S (List.length rs).
Proof.
  induction rs as [|x rest IH]; intros token k result fuel Hcb Hgo Hq Hr He Hf;
    (destruct fuel as [|fuel]; [cbn in Hf; lia|]); cbn [batchLoop].
  - rewrite Nat.add_0_r in Hr. rewrite Hr, Hcb.
    change (counters (updateResult result r))
      with (addBatch (counters result) r).
    cbn [fold_left] in He. rewrite He. eexists. now repeat split.
  - destruct Hgo as (Hx & Htok & Hcap & Hrest). destruct Hq as [Hqx Hqrest].
    rewrite Hx, Hcb.
    change (counters (updateResult result x))
      with (addBatch (counters result) x).
    rewrite Hqx, Htok, Hcap. cbn [andb negb].
    destruct (IH (continuation x) (S k) (updateResult result x) fuel)
      as (t & Hrun & Hreq & Hprog); trivial.
    + now replace (S k + List.length rest)%nat
        with (k + S (List.length rest))%nat by lia.
    + cbn in Hf. lia.
    + rewrite Hrun. cbn [after]. eexists. split; [reflexivity|].
      change (?a :: ?b :: t) with ([a; b] ++ t).
      rewrite requestsOf_app, progressesOf_app, !length_app, Hreq, Hprog.
      now split.
Qed.

(** X3. An exception of the progress callback is not caught and not
    wrapped: when the callback throws on the event of a batch, after the
    batches before it went through, the operation throws that very
    exception; the call of that batch is its last remote call and the
    callback has been called once per batch. *)
Theorem callback_exception_leaves_loop callback rs r e fuel :
  tooSmall (maxBatches options) = false ->
  tooSmall (batchSize options) = false ->
  onProgress options = Some callback ->
  answers server 0 (rs ++ [r]) ->
  Forall (fun x => truthyString (continuation x) = true) rs ->
  (forall m, maxBatches options = Some m -> Z.of_nat (List.length rs) < m) ->
  quietOn callback zeroCounters rs ->
  callback (progressOf (sumCounters (rs ++ [r])) r) = Some e ->
  (List.length rs < fuel)%nat ->
  exists t,
    setAccessControlRecursiveInternal server mode acl options fuel =
    Some (Thrown e, t)
    /\ List.length (requestsOf t) = S (List.length rs)
    /\ List.length (progressesOf t) = S (List.length rs).
Proof.
  intros Hmb Hbs Hcb Hans Htok Hcap Hq He Hfuel.
  unfold setAccessControlRecursiveInternal. rewrite Hmb, Hbs.
  apply answers_app in Hans. destruct Hans as [Hrs [Hr _]].
  apply (loop_callback_throws callback r e rs); trivial.
  - now apply keepsGoing_intro.
  - unfold sumCounters in He. now rewrite fold_left_app in He.
Qed.

(** X4. Stopping on [maxBatches] and resuming from the returned token
    loses nothing: a first run capped at the batches [rsA ++ [rA]], followed
    by a second run that starts from the token the first returned, makes the
    same remote calls as one uncapped run, in the same order; the counters of
    the two results add up to the counters of the uncapped run and the second
    result carries the same final token. *)
Theorem resumed_run_adds_up rsA rA rs2 r fuel :
  tooSmall (batchSize options) = false ->
  quietCallback options ->
  answers server 0 ((rsA ++ [rA]) ++ rs2 ++ [r]) ->
  Forall (fun x => truthyString (continuation x) = true)
         ((rsA ++ [rA]) ++ rs2) ->
  truthyString (continuation r) = false ->
  (List.length (rsA ++ [rA]) + List.length rs2 < fuel)%nat ->
  let start := optContinuationToken options in
  let cap := Some (Z.of_nat (List.length (rsA ++ [rA]))) in
  exists resultA tA resultB tB resultC tC,
    setAccessControlRecursiveInternal server mode acl
      (withBatchesAndToken options cap start) fuel =
    Some (Returned resultA, tA)
    /\ setAccessControlRecursiveInternal
         (afterCalls (List.length (rsA ++ [rA])) server) mode acl
         (withBatchesAndToken options None (continuationToken resultA)) fuel =
       Some (Returned resultB, tB)
    /\ setAccessControlRecursiveInternal server mode acl
         (withBatchesAndToken options None start) fuel =
       Some (Returned resultC, tC)
    /\ truthyString (continuationToken resultA) = true
    /\ counters resultC = addCounters (counters resultA) (counters resultB)
    /\ continuationToken resultC = continuationToken resultB
    /\ requestsOf tC = requestsOf tA ++ requestsOf tB.
Proof.
  intros Hbs Hq Hans Htok Hend Hfuel start cap.
  rewrite length_app in Hfuel. cbn [List.length] in Hfuel.
  pose proof Hans as Hall.
  apply answers_app in Hans. destruct Hans as [HansA HansB].
  apply Forall_app in Htok. destruct Htok as [HtokA Htok2].
  apply Forall_app in HtokA. destruct HtokA as [HtokA HtokrA].
  inversion HtokrA as [|? ? HrA _]; subst.
  assert (HlenA : List.length (rsA ++ [rA]) = S (List.length rsA))
    by (rewrite length_app; cbn; lia).
  assert (HA : setAccessControlRecursiveInternal server mode acl
                 (withBatchesAndToken options cap start) fuel =
               Some (Returned {| counters := sumCounters (rsA ++ [rA]);
                                 continuationToken := continuation rA |},
                     scriptEvents mode acl
                       (withBatchesAndToken options cap start)
                       start zeroCounters (rsA ++ [rA]))).
  { apply (run_returns server mode acl
             (withBatchesAndToken options cap start) rsA rA fuel); trivial.
    - unfold cap. cbn. apply Z.ltb_ge. lia.
    - intros m Hm. cbn in Hm. injection Hm as <-. lia.
    - right. cbn. unfold cap. f_equal. lia.
    - lia. }
  assert (HB : setAccessControlRecursiveInternal
                 (afterCalls (List.length (rsA ++ [rA])) server) mode acl
                 (withBatchesAndToken options None (continuation rA)) fuel =
               Some (Returned {| counters := sumCounters (rs2 ++ [r]);
                                 continuationToken := continuation r |},
                     scriptEvents mode acl
                       (withBatchesAndToken options None (continuation rA))
                       (continuation rA) zeroCounters (rs2 ++ [r]))).
  { apply (run_returns (afterCalls (List.length (rsA ++ [rA])) server)
             mode acl (withBatchesAndToken options None (continuation rA))
             rs2 r fuel); trivial.
    - apply answers_afterCalls. now rewrite Nat.add_0_r.
    - intros m Hm. discriminate Hm.
    - now left.
    - lia. }
  assert (HC : setAccessControlRecursiveInternal server mode acl
                 (withBatchesAndToken options None start) fuel =
               Some (Returned {| counters :=
                                   sumCounters (((rsA ++ [rA]) ++ rs2) ++ [r]);
                                 continuationToken := continuation r |},
                     scriptEvents mode acl
                       (withBatchesAndToken options None start)
                       start zeroCounters (((rsA ++ [rA]) ++ rs2) ++ [r]))).
  { apply (run_returns server mode acl
             (withBatchesAndToken options None start)
             ((rsA ++ [rA]) ++ rs2) r fuel); trivial.
    - now rewrite <- app_assoc.
    - apply Forall_app. split; [apply Forall_app; split|]; trivial.
    - intros m Hm. discriminate Hm.
    - now left.
    - rewrite length_app. lia. }
  eexists _, _, _, _, _, _.
  split; [exact HA|split; [exact HB|split; [exact HC|]]].
  cbn [counters continuationToken]. split; [exact HrA|].
  split; [|split; [reflexivity|]].
  - unfold sumCounters at 1. rewrite <- app_assoc, fold_left_app.
    rewrite fold_addBatch. reflexivity.
  - rewrite <- app_assoc, events_app, requestsOf_app.
    rewrite !requestsOf_events. f_equal.
    rewrite (map_app continuation rsA [rA]). cbn [map].
    rewrite last_last. reflexivity.
Qed.

End Resumed.

Lemma callback_exception_witness :
  exists t,
    setAccessControlRecursive serviceThreeBatches sampleAcl
      {| batchSize := Some 2;
         maxBatches := None;
         optContinuationToken := None;
         continueOnFailure := None;
         onProgress := Some throwsAfterFirst |} 5 =
    Some (Thrown (Error "stop"), t)
    /\ List.length (requestsOf t) = 2%nat
    /\ List.length (progressesOf t) = 2%nat.
Proof.
  apply (callback_exception_leaves_loop serviceThreeBatches set sampleAcl
           {| batchSize := Some 2;
              maxBatches := None;
              optContinuationToken := None;
              continueOnFailure := None;
              onProgress := Some throwsAfterFirst |}
           throwsAfterFirst [responseA] responseB (Error "stop") 5).
  - reflexivity.
  - reflexivity.
  - reflexivity.
  - cbn. auto.
  - repeat constructor.
  - intros m H. discriminate H.
  - cbn. auto.
  - reflexivity.
  - cbn. lia.
Defined.

Lemma resumed_run_witness :
  exists resultA tA resultB tB resultC tC,
    setAccessControlRecursive serviceThreeBatches sampleAcl
      (withBatchesAndToken (sampleOptions (Some 2) None None)
         (Some 2) None) 5 = Some (Returned resultA, tA)
    /\ setAccessControlRecursive (afterCalls 2 serviceThreeBatches) sampleAcl
         (withBatchesAndToken (sampleOptions (Some 2) None None)
            None (continuationToken resultA)) 5 = Some (Returned resultB, tB)
    /\ setAccessControlRecursive serviceThreeBatches sampleAcl
         (withBatchesAndToken (sampleOptions (Some 2) None None)
            None None) 5 = Some (Returned resultC, tC)
    /\ truthyString (continuationToken resultA) = true
    /\ counters resultC = addCounters (counters resultA) (counters resultB)
    /\ continuationToken resultC = continuationToken resultB
    /\ requestsOf tC = requestsOf tA ++ requestsOf tB.
Proof.
  apply (resumed_run_adds_up serviceThreeBatches set sampleAcl
           (sampleOptions (Some 2) None None)
           [responseA] responseB [] responseEnd 5).
  - reflexivity.
  - intros callback p H. injection H as <-. reflexivity.
  - cbn. auto.
  - repeat constructor.
  - reflexivity.
  - cbn. lia.
Defined.

End ResumptionProofs.

(** ** Create *)

Module CreateProofs.

Import Create.

Section Clients.

Context {models : PathModels}.
Variable remote : CreateRequest -> Exn + PathCreateResponse.

Lemma pathCreateIfNotExists_asks kind options :
  asksOnlyIfAbsent remote kind options
    (pathCreateIfNotExists (fun r o => Passed (pathCreate remote r o))
                           kind options).
Proof.
  unfold pathCreateIfNotExists, pathCreate. cbn [conditionsOrEmpty conditions
    metadata others].
  set (q := {| resource := kind;
               leaseAccessConditions := _;
               modifiedAccessConditions := _;
               properties := _;
               handedOn := _ |}).
  exists q. repeat split.
  destruct (remote q) as [e|res]; [|reflexivity].
  destruct (hasErrorCode errorCode "PathAlreadyExists" e); reflexivity.
Qed.

(** X5. A directory client never creates a file and a file client never
    creates a directory: every create request that [create] or
    [createIfNotExists] of a client issues names the client's own kind of
    resource, whatever the arguments; when the other kind is asked for, the
    operation throws a [TypeError] and issues no request. *)
Theorem clients_create_their_own_kind arg options :
  Forall (fun q => resource q = directory)
         (requestsMade (directoryCreate remote arg options))
  /\ Forall (fun q => resource q = directory)
            (requestsMade (directoryCreateIfNotExists remote arg options))
  /\ Forall (fun q => resource q = file)
            (requestsMade (fileCreate remote arg options))
  /\ Forall (fun q => resource q = file)
            (requestsMade (fileCreateIfNotExists remote arg options))
  /\ (exists m, directoryCreate remote (IsResourceType file) options =
                Refused (TypeError m))
  /\ (exists m, directoryCreateIfNotExists remote (IsResourceType file)
                  options = Refused (TypeError m))
  /\ (exists m, fileCreate remote (IsResourceType directory) options =
                Refused (TypeError m))
  /\ (exists m, fileCreateIfNotExists remote (IsResourceType directory)
                  options = Refused (TypeError m)).
Proof.
  assert (Hcreate : forall kind o,
            Forall (fun q => resource q = kind)
                   (requestsMade (Passed (pathCreate remote kind o)))).
  { intros kind o. unfold pathCreate.
    destruct (remote _); repeat constructor. }
  assert (Hif : forall kind o r,
            asksOnlyIfAbsent remote kind o r ->
            Forall (fun q => resource q = kind) (requestsMade r)).
  { intros kind o r (q & _ & Hq & _ & _ & ->). cbn. now repeat constructor. }
  repeat split; try (eexists; reflexivity).
  - destruct arg as [[|]| |]; cbn [directoryCreate requestsMade];
      try apply Hcreate; constructor.
  - destruct arg as [[|]| |]; cbn [directoryCreateIfNotExists];
      try (eapply Hif; apply pathCreateIfNotExists_asks); constructor.
  - destruct arg as [[|]| |]; cbn [fileCreate requestsMade];
      try apply Hcreate; constructor.
  - destruct arg as [[|]| |]; cbn [fileCreateIfNotExists];
      try (eapply Hif; apply pathCreateIfNotExists_asks); constructor.
Qed.

(** X6. [createIfNotExists], of the path client and of a directory or file
    client asked for its own kind or for none, issues exactly one create
    request.  Its access conditions are [{ ifNoneMatch: ETagAny }] whatever
    conditions the caller gave, so that an existing path is never
    overwritten; metadata and the other options are handed on.  A remote
    failure with the error code "PathAlreadyExists" becomes the result
    [succeeded: false]; any other failure is thrown as it is. *)
Theorem createIfNotExists_asks_only_if_absent kind arg options :
  asksOnlyIfAbsent remote kind options
    (pathCreateIfNotExists (fun r o => Passed (pathCreate remote r o))
                           kind options)
  /\ (arg <> IsResourceType file ->
      asksOnlyIfAbsent remote directory
        match arg with IsOptions o => o | IsUndefined => noOptions
                  | _ => options end
        (directoryCreateIfNotExists remote arg options))
  /\ (arg <> IsResourceType directory ->
      asksOnlyIfAbsent remote file
        match arg with IsOptions o => o | IsUndefined => noOptions
                  | _ => options end
        (fileCreateIfNotExists remote arg options)).
Proof.
  split; [apply pathCreateIfNotExists_asks|].
  split; intros Harg; destruct arg as [[|]| |]; try contradiction;
    apply pathCreateIfNotExists_asks.
Qed.

End Clients.

(** On a path that exists, with a lease and an ETag condition supplied by
    the caller: the request carries neither, and the failure is a result. *)
Lemma createIfNotExists_witness :
  asksOnlyIfAbsent pathExists file leasedOptions
    (fileCreateIfNotExists pathExists (IsOptions leasedOptions) noOptions)
  /\ exists q,
       fileCreateIfNotExists pathExists (IsOptions leasedOptions) noOptions =
       Passed (Some (Returned (NotSucceeded (Error "PathAlreadyExists")),
                     [q]))
       /\ leaseId (leaseAccessConditions q) = None
       /\ ifMatch (modifiedAccessConditions q) = None
       /\ ifNoneMatch (modifiedAccessConditions q) = Some "*"%string.
Proof.
  split; [|eexists; repeat split].
  apply (proj2 (proj2 (createIfNotExists_asks_only_if_absent pathExists file
                         (IsOptions leasedOptions) noOptions))).
  discriminate.
Defined.

End CreateProofs.

(** ** Delete: every run, and delete if exists *)

Module DeleteIfExistsProofs.

Import Delete DeleteIfExists DeleteProofs.

Section Loop.

Context {models : Models}.
Variable errorCode : Exn -> option string.
Variable server : nat -> Exn + PathDeleteResponse.
Variable recursive : option bool.
Variable conditions : Conditions.

Lemma answers_snoc rs : forall r k,
  answers server k rs ->
  server (k + List.length rs)%nat = inr r ->
  answers server k (rs ++ [r]).
Proof.
  induction rs as [|x rest IH]; intros r k Hans Hr.
  - cbn in *. rewrite Nat.add_0_r in Hr. auto.
  - destruct Hans as [Hx Hrest]. split; [exact Hx|]. apply IH; trivial.
    now replace (S k + List.length rest)%nat
      with (k + S (List.length rest))%nat by lia.
Qed.

(** The loop on responses that carry a token, then a failing call. *)
Lemma deleteLoop_fails rs : forall e fuel token k,
  answers server k rs ->
  Forall hasToken rs ->
  server (k + List.length rs)%nat = inl e ->
  (List.length rs < fuel)%nat ->
  deleteLoop server recursive conditions fuel token k =
  Some (Thrown e,
        map (request recursive conditions) (token :: map continuation rs)).
Proof.
  induction rs as [|x rest IH]; intros e fuel token k Hans Htok He Hfuel;
    (destruct fuel as [|fuel]; [cbn in Hfuel; lia|]); cbn [deleteLoop].
  - rewrite Nat.add_0_r in He. now rewrite He.
  - destruct Hans as [Hx Hrest]. rewrite Hx.
    inversion Htok as [|? ? Hx1 Hrest1]; subst.
    rewrite (hasToken_more _ Hx1).
    rewrite (IH e fuel (continuation x) (S k)); trivial.
    + now replace (S k + List.length rest)%nat
        with (k + S (List.length rest))%nat by lia.
    + cbn in Hfuel. lia.
Qed.

(** Whatever the service answers, the loop sends its first call with the
    token it is entered with and every later call with a token that is
    not empty. *)
Lemma deleteLoop_tokens fuel : forall token k o t,
  deleteLoop server recursive conditions fuel token k = Some (o, t) ->
  exists tokens,
    t = map (request recursive conditions) (token :: tokens)
    /\ Forall (fun c => moreToDelete c = true) tokens.
Proof.
  induction fuel as [|fuel IH]; intros token k o t H; [discriminate|].
  cbn [deleteLoop] in H. destruct (server k) as [e|x].
  - injection H as <- <-. exists []. now split.
  - destruct (moreToDelete (continuation x)) eqn:Hmore.
    + destruct (deleteLoop server recursive conditions fuel (continuation x)
                  (S k)) as [[o' t']|] eqn:Hrec; cbn [after] in H;
        [|discriminate].
      injection H as <- <-.
      destruct (IH _ _ _ _ Hrec) as (tokens & -> & Hall).
      exists (continuation x :: tokens). split; [reflexivity|].
      now constructor.
    + injection H as <- <-. exists []. now split.
Qed.

(** X7. Whatever the service answers, [delete] sends its first call
    without a continuation token and every later call with a token that is
    neither absent nor empty; all calls carry the same [recursive] flag and
    conditions. *)
Theorem delete_sends_no_empty_token fuel o t :
  delete server recursive conditions fuel = Some (o, t) ->
  exists tokens,
    t = map (request recursive conditions) (None :: tokens)
    /\ Forall (fun c => exists s, c = Some s /\ s <> EmptyString) tokens.
Proof.
  intros H. destruct (deleteLoop_tokens _ _ _ _ _ H) as (tokens & -> & Hall).
  exists tokens. split; [reflexivity|].
  eapply Forall_impl; [|exact Hall].
  intros [s|] Hs; [|discriminate]. exists s. split; [reflexivity|].
  intros ->. discriminate.
Qed.

(** X8. [deleteIfExists] makes the remote calls of [delete].  When the
    loop reaches a response without token it reports [succeeded: true] with
    that response.  When a call fails, after the pages [rs] were deleted, a
    failure with the error code "PathNotFound" is reported as
    [succeeded: false], also on a later page, and any other failure is
    thrown as it is; the failing call is the last one. *)
Theorem deleteIfExists_outcomes rs fuel :
  answers server 0 rs ->
  Forall hasToken rs ->
  (List.length rs < fuel)%nat ->
  (forall r, server (List.length rs) = inr r -> lastPage r ->
     deleteIfExists errorCode server recursive conditions fuel =
     Some (Returned (Succeeded r),
           map (request recursive conditions) (None :: map continuation rs)))
  /\ (forall e, server (List.length rs) = inl e ->
     deleteIfExists errorCode server recursive conditions fuel =
     Some ((if hasErrorCode errorCode "PathNotFound" e
            then Returned (NotSucceeded e)
            else Thrown e),
           map (request recursive conditions) (None :: map continuation rs))).
Proof.
  intros Hans Htok Hfuel. split.
  - intros r Hr Hlast. unfold deleteIfExists, delete.
    rewrite (deleteLoop_pages server recursive conditions rs r); trivial.
    now apply answers_snoc.
  - intros e He. unfold deleteIfExists, delete.
    rewrite (deleteLoop_fails rs e); trivial.
    destruct (hasErrorCode errorCode "PathNotFound" e); reflexivity.
Qed.

End Loop.

Abbreviation sampleRequest := (@request sampleModels (Some true) tt).

Lemma delete_tokens_witness :
  exists tokens,
    [sampleRequest None;
     sampleRequest (Some "page-2"%string);
     sampleRequest (Some "page-3"%string)] =
    map sampleRequest (None :: tokens)
    /\ Forall (fun c => exists s, c = Some s /\ s <> EmptyString) tokens.
Proof.
  apply (delete_sends_no_empty_token serviceThreePages (Some true) tt 5
           (Returned (None, "request-3"%string))).
  reflexivity.
Defined.

(** The first page is deleted, then the directory is gone: the result is
    [succeeded: false] after two calls. *)
Lemma deleteIfExists_witness :
  deleteIfExists sampleErrorCode serviceGoneOnSecondPage (Some true) tt 5 =
  Some (Returned (NotSucceeded (Error "PathNotFound")),
        [sampleRequest None; sampleRequest (Some "page-2"%string)]).
Proof.
  apply (proj2 (deleteIfExists_outcomes sampleErrorCode
                  serviceGoneOnSecondPage (Some true) tt
                  [(Some "page-2"%string, "request-1"%string)] 5
                  ltac:(cbn; auto)
                  ltac:(repeat constructor; eexists;
                        (split; [reflexivity|discriminate]))
                  ltac:(cbn; lia))
           (Error "PathNotFound")).
  reflexivity.
Defined.

End DeleteIfExistsProofs.

(** ** Move *)

Module MoveProofs.

Import Create Move.

Lemma split_length c s :
  List.length (split c s) = S (occurrences c s).
Proof.
  induction s as [|a rest IH]; [reflexivity|].
  cbn [split occurrences]. destruct (Ascii.eqb a c).
  - cbn [List.length]. now rewrite IH.
  - destruct (split c rest) as [|piece pieces]; [discriminate IH|].
    exact IH.
Qed.

(** Joining the pieces with the separator gives the string back. *)
Lemma split_join c s :
  String.concat (String c EmptyString) (split c s) = s.
Proof.
  induction s as [|a rest IH]; [reflexivity|].
  pose proof (split_length c rest) as Hlen.
  cbn [split]. destruct (Ascii.eqb_spec a c) as [->|Hne];
    destruct (split c rest) as [|piece pieces]; try discriminate Hlen.
  - change (String.concat (String c EmptyString) (EmptyString :: piece :: pieces))
      with (String c (String.concat (String c EmptyString) (piece :: pieces))).
    now rewrite IH.
  - destruct pieces as [|next pieces].
    + cbn [String.concat] in *. now rewrite IH.
    + change (String.concat (String c EmptyString)
                (String a piece :: next :: pieces))
        with (String a (String.concat (String c EmptyString)
                          (piece :: next :: pieces))).
      now rewrite IH.
Qed.

Lemma occurrences_app c s1 s2 :
  occurrences c (s1 ++ s2) = (occurrences c s1 + occurrences c s2)%nat.
Proof.
  induction s1 as [|a rest IH]; [reflexivity|].
  cbn [String.append occurrences]. destruct (Ascii.eqb a c); cbn; now rewrite IH.
Qed.

Section Operation.

Context {models : PathModels}.
Variable getURLPathAndQuery : string -> option string.
Variable setURLPath : string -> string -> string.
Variable setURLQueries : string -> string -> string.
Variable dfsEndpointUrl : string.
Variable fileSystemName : string.
Variable remote : RenameRequest -> Exn + PathCreateResponse.

Abbreviation moveTo :=
  (move getURLPathAndQuery setURLPath setURLQueries dfsEndpointUrl
        fileSystemName remote).


End Operation.


End MoveProofs.

(** ** Expiry *)

Module ExpiryProofs.

Import Expiry.

Section Operation.

Variable numberToString : Z -> string.
Variable toUTCString : Date -> string.
Variable FileSetExpiryResponse : Type.
Variable remote : SetExpiryRequest -> Exn + FileSetExpiryResponse.

Abbreviation expire := (setExpiry numberToString toUTCString remote).

Lemma sent_intro now mode options expiresOn :
  expiresOnFor numberToString toUTCString now mode options = Passed expiresOn ->
  sent mode expiresOn (expire now mode options).
Proof.
  intros H. unfold setExpiry, sent. rewrite H.
  destruct (remote _); eexists; reflexivity.
Qed.

Lemma refused_intro now mode options e :
  expiresOnFor numberToString toUTCString now mode options = Refused e ->
  refused (expire now mode options).
Proof. intros H. unfold setExpiry, refused. rewrite H. now eexists. Qed.

(** X10. What [setExpiry] accepts.  With [NeverExpire] it always makes
    the remote call, without an expiry, whatever the options hold.  With a
    relative mode it throws before any remote call when
    [timeToExpireInMs] is absent or 0, and otherwise makes one call with the
    number printed.  With [Absolute] it throws before any remote call when
    [expiresOn] is absent, invalid or not later than now, and otherwise
    makes one call with the date in UTC form.  The options of another mode
    are ignored. *)
Theorem setExpiry_accepts now options :
  sent NeverExpire None (expire now NeverExpire options)
  /\ (forall mode,
      mode = RelativeToNow \/ mode = RelativeToCreation ->
      (timeToExpireInMs options = None \/ timeToExpireInMs options = Some 0 ->
       refused (expire now mode options))
      /\ (forall ms, timeToExpireInMs options = Some ms -> ms <> 0 ->
          sent mode (Some (numberToString ms))
               (expire now mode options)))
  /\ (expiresOn options = None -> refused (expire now Absolute options))
  /\ (forall date, expiresOn options = Some date ->
      (laterThan date now = false -> refused (expire now Absolute options))
      /\ (laterThan date now = true ->
          sent Absolute (Some (toUTCString date))
               (expire now Absolute options))).
Proof.
  split; [now apply sent_intro|]. split; [|split].
  - intros mode Hmode. split.
    + intros Hms. eapply refused_intro.
      destruct Hmode as [-> | ->]; cbn [expiresOnFor];
        destruct Hms as [-> | ->]; reflexivity.
    + intros ms Hms Hne. apply sent_intro.
      assert (Hf : falsyNumber (timeToExpireInMs options) = false)
        by (rewrite Hms; cbn; now apply Z.eqb_neq).
      destruct Hmode as [-> | ->]; cbn [expiresOnFor];
        rewrite Hf, Hms; reflexivity.
  - intros Hnone. eapply refused_intro. cbn [expiresOnFor].
    rewrite Hnone. reflexivity.
  - intros date Hdate. split; intros Hlater.
    + eapply refused_intro. cbn [expiresOnFor].
      rewrite Hdate, Hlater. reflexivity.
    + apply sent_intro. cbn [expiresOnFor].
      rewrite Hdate, Hlater. reflexivity.
Qed.

End Operation.

(** A relative expiry of 0 milliseconds is refused, also when an absolute
    date is supplied with it. *)
Lemma setExpiry_witness :
  refused
    (setExpiry (fun _ => "0"%string) (fun _ => "date"%string)
       (fun _ : SetExpiryRequest => inr tt) (Some 1000) RelativeToNow
       {| timeToExpireInMs := Some 0; expiresOn := Some (Some 2000) |}).
Proof.
  apply (proj1 (proj1 (proj2 (setExpiry_accepts (fun _ => "0"%string)
                                (fun _ => "date"%string) unit
                                (fun _ => inr tt) (Some 1000)
                                {| timeToExpireInMs := Some 0;
                                   expiresOn := Some (Some 2000) |}))
                  RelativeToNow (or_introl eq_refl))).
  right. reflexivity.
Defined.

End ExpiryProofs.

(** ** Upload: what every run does *)

Module TransferProofs.

Import Upload Transfer UploadProofs.

Section Pool.

Context {constants : Constants}.
Variable remote : RemoteCall -> Exn + FileUploadResponse.
Variable bodyFactory : Z -> Z -> HttpRequestBody.
Variable options : FileParallelUploadOptions.
Variable choose : list Operation -> nat.
Variable concurrency : Z.

Abbreviation pool := (batchDo remote bodyFactory options choose concurrency).

Lemma loadedBytesOf_app (t1 t2 : list Event) :
  loadedBytesOf (t1 ++ t2) = loadedBytesOf t1 ++ loadedBytesOf t2.
Proof. apply flat_map_app. Qed.

Lemma loadedBytesOf_started (started : list Operation) :
  loadedBytesOf (map (begin bodyFactory) started) = [].
Proof. induction started as [|op l IH]; [reflexivity|exact IH]. Qed.

Lemma lengthsOf_app (l1 l2 : list Operation) :
  lengthsOf (l1 ++ l2) = lengthsOf l1 + lengthsOf l2.
Proof.
  unfold lengthsOf. induction l1 as [|op l IH]; [reflexivity|].
  cbn [app fold_right]. rewrite IH. lia.
Qed.

Lemma lengthsOf_removeAt (l : list Operation) : forall j d,
  (j < List.length l)%nat ->
  lengthsOf (removeAt j l) + contentLength (nth j l d) = lengthsOf l.
Proof.
  unfold lengthsOf.
  induction l as [|op l IH]; intros j d Hj; [cbn in Hj; lia|].
  destruct j as [|j]; cbn [removeAt nth fold_right]; [lia|].
  cbn in Hj. specialize (IH j d ltac:(lia)). lia.
Qed.

Lemma Forall_removeAt {A : Type} (P : A -> Prop) (l : list A) : forall j,
  Forall P l -> Forall P (removeAt j l).
Proof.
  induction l as [|x l IH]; intros j H; [destruct j; constructor|].
  inversion H as [|? ? Hx Hl]; subst.
  destruct j as [|j]; cbn [removeAt]; [exact Hl|].
  constructor; [exact Hx|now apply IH].
Qed.

(** What a task reports when it succeeds with a callback. *)
Lemma resume_reports callback op transferProgress transferProgress' evs :
  onProgress options = Some callback ->
  resume remote bodyFactory options op transferProgress =
  Some (Returned transferProgress', evs) ->
  transferProgress' = transferProgress + contentLength op
  /\ loadedBytesOf evs = [transferProgress'].
Proof.
  intros Hcb. unfold resume. rewrite Hcb.
  destruct (remote _) as [e|r]; [discriminate|].
  destruct (callback _) as [e|]; [discriminate|].
  intros H. injection H as <- <-. now split.
Qed.

(** The totals that the tasks of the pool report: each is larger than the
    one before, there is one per task, and the last is the sum of all
    lengths. *)
Lemma batchDo_progress callback fuel :
  forall pending actives transferProgress transferProgress' t,
  onProgress options = Some callback ->
  pool fuel pending actives transferProgress =
  Some (Returned transferProgress', t) ->
  Forall (fun op => 0 < contentLength op) (actives ++ pending) ->
  increasing transferProgress (loadedBytesOf t)
  /\ last (loadedBytesOf t) transferProgress = transferProgress'
  /\ transferProgress' =
     transferProgress + lengthsOf actives + lengthsOf pending
  /\ List.length (loadedBytesOf t) =
     (List.length actives + List.length pending)%nat.
Proof.
  induction fuel as [|fuel IH]; intros pending actives tp tp' t Hcb H Hpos;
    rewrite batchDo_eq in H;
    destruct (dispatch bodyFactory concurrency pending actives)
      as [[p' a'] evs] eqn:Hd;
    destruct (dispatch_spec _ _ _ _ _ _ _ Hd)
      as (started & -> & -> & -> & _ & _);
    destruct (actives ++ started) as [|first rest] eqn:Ha.
  - apply nothing_started in Ha. destruct Ha as [-> ->].
    destruct p'; [|discriminate]. injection H as <- <-.
    cbn. repeat split; lia.
  - discriminate.
  - apply nothing_started in Ha. destruct Ha as [-> ->].
    destruct p'; [|discriminate]. injection H as <- <-.
    cbn. repeat split; lia.
  - cbv zeta in H.
    set (j := (choose (first :: rest) mod List.length (first :: rest))%nat)
      in H.
    assert (Hj : (j < List.length (first :: rest))%nat)
      by (apply choose_in_range; discriminate).
    set (op := nth j (first :: rest) first) in H.
    rewrite app_assoc, Ha in Hpos.
    apply Forall_app in Hpos. destruct Hpos as [Hposa Hposp].
    assert (Hop : 0 < contentLength op).
    { unfold op. rewrite Forall_forall in Hposa. apply Hposa.
      now apply nth_In. }
    destruct (resume remote bodyFactory options op tp)
      as [[[tp1|e] evs1]|] eqn:Hr; cbn [bind] in H; try discriminate.
    destruct (pool fuel p' (removeAt j (first :: rest)) tp1)
      as [[o2 t2]|] eqn:Hrec; cbn [after] in H; [|discriminate].
    injection H as -> <-.
    destruct (resume_reports _ _ _ _ _ Hcb Hr) as [Htp1 Hev1].
    destruct (IH _ _ _ _ _ Hcb Hrec) as (Hinc & Hlast & Hsum & Hcount).
    { apply Forall_app. split; [now apply Forall_removeAt|exact Hposp]. }
    rewrite !loadedBytesOf_app, loadedBytesOf_started, Hev1.
    cbn [app increasing]. rewrite last_cons.
    pose proof (lengthsOf_removeAt (first :: rest) j first Hj) as Hrm.
    fold op in Hrm.
    pose proof (length_removeAt (first :: rest) j Hj) as Hlen.
    assert (Hla : lengthsOf (first :: rest) =
                  lengthsOf actives + lengthsOf started)
      by (rewrite <- Ha; apply lengthsOf_app).
    assert (Hna : List.length (first :: rest) =
                  (List.length actives + List.length started)%nat)
      by (rewrite <- Ha; apply length_app).
    rewrite lengthsOf_app, length_app. cbn [List.length] in *.
    repeat split; try lia. exact Hinc.
Qed.

(** Whatever its outcome, the pool issues the appends of its queue in
    queue order, and nothing else. *)
Lemma batchDo_calls_prefix fuel : forall pending actives transferProgress o t,
  pool fuel pending actives transferProgress = Some (o, t) ->
  exists issued rest,
    pending = issued ++ rest
    /\ remoteCallsOf t = map (appendCallOf bodyFactory) issued.
Proof.
  induction fuel as [|fuel IH]; intros pending actives tp o t H;
    rewrite batchDo_eq in H;
    destruct (dispatch bodyFactory concurrency pending actives)
      as [[p' a'] evs] eqn:Hd;
    destruct (dispatch_spec _ _ _ _ _ _ _ Hd)
      as (started & -> & -> & -> & _ & _);
    destruct (actives ++ started) as [|first rest] eqn:Ha.
  - destruct p'; [|discriminate]. injection H as <- <-.
    exists started, []. split; [reflexivity|apply remoteCallsOf_started].
  - discriminate.
  - destruct p'; [|discriminate]. injection H as <- <-.
    exists started, []. split; [reflexivity|apply remoteCallsOf_started].
  - cbv zeta in H.
    set (j := (choose (first :: rest) mod List.length (first :: rest))%nat)
      in H.
    set (op := nth j (first :: rest) first) in H.
    destruct (resume remote bodyFactory options op tp)
      as [[[tp1|e] evs1]|] eqn:Hr; cbn [bind] in H; try discriminate.
    + destruct (resume_events _ _ _ _ _ _ _ Hr) as (_ & Hc1 & _ & _).
      destruct (pool fuel p' (removeAt j (first :: rest)) tp1)
        as [[o2 t2]|] eqn:Hrec; cbn [after] in H; [|discriminate].
      injection H as <- <-.
      destruct (IH _ _ _ _ _ Hrec) as (issued & rest' & -> & Hcalls).
      exists (started ++ issued), rest'. split; [now rewrite app_assoc|].
      rewrite !remoteCallsOf_app, remoteCallsOf_started, Hc1, Hcalls.
      now rewrite map_app.
    + destruct (resume_events _ _ _ _ _ _ _ Hr) as (_ & Hc1 & _ & _).
      cbn [after] in H. injection H as <- <-.
      exists started, p'. split; [reflexivity|].
      rewrite remoteCallsOf_app, remoteCallsOf_started, Hc1.
      apply app_nil_r.
Qed.

End Pool.


Section Runs.

Context {constants : Constants}.
Variable remote : RemoteCall -> Exn + FileUploadResponse.
Variable bodyFactory : Z -> Z -> HttpRequestBody.
Variable choose : list Operation -> nat.

Abbreviation run := (uploadSeekableInternal remote bodyFactory choose).

Ltac leaves_early :=
  let H := fresh "H" in
  intros H; cbn [after app] in H; injection H as <- <-; left;
  split;
  [ let Hin := fresh "Hin" in
    intros ? Hin; cbn in Hin; intuition discriminate
  | intros ? ?; discriminate ].

(** Every run of an upload is of one of two kinds.  Either it makes no
    flush call, and then it returns only for an empty payload, with the
    create call as its one effect.  Or the payload is not empty, the size
    and the options passed every check, the appends of the plan were all
    issued and have all settled, and the flush at [size] is the last
    effect. *)
Lemma run_shape size options o t :
  run size options = Some (o, t) ->
  ((forall position, ~ In (FlushData position) (remoteCallsOf t))
   /\ (forall response, o = Returned response ->
         size = 0 /\ t = [Issued Create]))
  \/ (size <> 0
      /\ size <= FILE_MAX_SIZE_BYTES
      /\ validOptions size options
      /\ (resolveSingleUploadThreshold options < size ->
          numBlocksOf size (resolveChunkSize size options)
          <= BLOCK_BLOB_MAX_BLOCKS)
      /\ exists t0,
           t = t0 ++ [Issued (FlushData size)]
           /\ inFlight t0 = 0
           /\ remoteCallsOf t0 =
              Create :: map (appendCallOf bodyFactory) (planOf size options)
           /\ (forall response, o = Returned response ->
                 remote (FlushData size) = inr response)
           /\ (resolveSingleUploadThreshold options < size ->
               exists transferProgress t1,
                 t0 = [Issued Create;
                       NewBatch (resolveMaxConcurrency options)] ++ t1
                 /\ batchDo remote bodyFactory options choose
                      (resolveMaxConcurrency options)
                      (List.length (planOf size options))
                      (planOf size options) [] 0 =
                    Some (Returned transferProgress, t1))).
Proof.
  unfold uploadSeekableInternal, create, call, throw, ret.
  destruct (Z.gtb_spec size FILE_MAX_SIZE_BYTES) as [Hbig|Hmax].
  { intros H. injection H as <- <-. left.
    split; [intros p []|discriminate]. }
  destruct (remote Create) as [e|createRes] eqn:Hcreate; cbn [bind];
    [leaves_early|].
  destruct (Z.eqb_spec size 0) as [Hz|Hnz].
  { intros H. cbn [after app] in H. injection H as <- <-. left.
    split; [intros p Hin; cbn in Hin; intuition discriminate|].
    intros _ _. now split. }
  cbv zeta.
  destruct (Z.ltb_spec (resolveChunkSize size options) 1) as [?|Hc1];
    cbn [orb]; [leaves_early|].
  destruct (Z.gtb_spec (resolveChunkSize size options)
              FILE_UPLOAD_MAX_CHUNK_SIZE) as [?|Hc2]; [leaves_early|].
  destruct (Z.leb_spec (resolveMaxConcurrency options) 0) as [?|Hconc];
    [leaves_early|].
  destruct (Z.ltb_spec (resolveSingleUploadThreshold options) 1) as [?|Ht1];
    cbn [orb]; [leaves_early|].
  destruct (Z.gtb_spec (resolveSingleUploadThreshold options)
              FILE_MAX_SINGLE_UPLOAD_THRESHOLD) as [?|Ht2]; [leaves_early|].
  assert (Hvalid : validOptions size options)
    by (unfold validOptions; lia).
  destruct (Z.leb_spec size (resolveSingleUploadThreshold options))
    as [Hsmall|Hlarge].
  - unfold append, flush, call, emit.
    destruct (remote (AppendData (bodyFactory 0 size) 0 size))
      as [e|r] eqn:Happend; cbn [bind after app]; [leaves_early|].
    assert (Hplan : planOf size options =
                    [{| start := 0; contentLength := size |}]).
    { unfold planOf.
      destruct (Z.leb_spec size (resolveSingleUploadThreshold options));
        [reflexivity|lia]. }
    destruct (remote (FlushData size)) as [e|response] eqn:Hflush;
      cbn [after app]; intros H; injection H as <- <-; right;
      (split; [exact Hnz|]); (split; [exact Hmax|]);
      (split; [exact Hvalid|]); (split; [lia|]);
      exists [Issued Create; Issued (AppendData (bodyFactory 0 size) 0 size);
              AppendCompleted 0 size];
      rewrite Hplan;
      (split; [reflexivity|]); (split; [reflexivity|]);
      (split; [reflexivity|]); (split; [|intros; lia]).
    + discriminate.
    + intros ? Hr. now injection Hr as <-.
  - destruct (Z.gtb_spec (numBlocksOf size (resolveChunkSize size options))
                BLOCK_BLOB_MAX_BLOCKS) as [?|Hblocks]; [leaves_early|].
    unfold emit, flush, call. cbn [bind].
    set (ops := operationsOf size (resolveChunkSize size options)
                  (numBlocksOf size (resolveChunkSize size options))).
    assert (Hplan : planOf size options = ops).
    { unfold planOf.
      destruct (Z.leb_spec size (resolveSingleUploadThreshold options));
        [lia|reflexivity]. }
    destruct (batchDo remote bodyFactory options choose
                (resolveMaxConcurrency options) (List.length ops) ops [] 0)
      as [[[tp|e] t1]|] eqn:Hrun; cbn [bind after app].
    + destruct (batchDo_trace _ _ _ _ _ _ _ _ _ _ _ Hrun) as [_ Hret];
        [cbn; lia|].
      destruct (Hret tp eq_refl) as (Hcalls & Hfl & _).
      destruct (remote (FlushData size)) as [e|response] eqn:Hflush;
        cbn [after app]; intros H; injection H as <- <-; right;
        (split; [exact Hnz|]); (split; [exact Hmax|]);
        (split; [exact Hvalid|]); (split; [intros _; exact Hblocks|]);
        exists ([Issued Create; NewBatch (resolveMaxConcurrency options)]
                ++ t1);
        rewrite Hplan;
        (split; [reflexivity|]);
        (split; [cbn [app inFlight fold_right weight];
                 fold (inFlight t1); rewrite Hfl; reflexivity|]);
        (split; [cbn [app remoteCallsOf flat_map];
                 fold (remoteCallsOf t1); rewrite Hcalls; reflexivity|]);
        (split; [|intros _; exists tp, t1; split; [reflexivity|exact Hrun]]).
      * discriminate.
      * intros ? Hr. now injection Hr as <-.
    + destruct (batchDo_calls_prefix _ _ _ _ _ _ _ _ _ _ _ Hrun)
        as (issued & rest & _ & Hcalls).
      intros H. injection H as <- <-. left.
      split; [|discriminate].
      intros p Hin. cbn [app remoteCallsOf flat_map] in Hin.
      fold (remoteCallsOf t1) in Hin. rewrite Hcalls in Hin.
      destruct Hin as [Hin|Hin]; [discriminate|].
      apply in_map_iff in Hin. destruct Hin as (op & Hop & _).
      discriminate.
    + discriminate.
Qed.


(** The lengths of the queued chunks add up as the lengths of the
    operations do. *)
Lemma totalLength_chunks (ops : list Operation) :
  totalLength (map chunkOf ops) = lengthsOf ops.
Proof.
  unfold totalLength, lengthsOf.
  induction ops as [|op ops IH]; [reflexivity|].
  cbn [map fold_right chunkOf snd]. now rewrite IH.
Qed.

(** Every chunk of the queue has at least one byte. *)
Lemma queue_positive size chunkSize :
  0 < chunkSize -> 0 < size ->
  Forall (fun op => 0 < contentLength op)
         (operationsOf size chunkSize (numBlocksOf size chunkSize)).
Proof.
  intros Hc Hs. apply Forall_forall. intros op Hin.
  unfold operationsOf in Hin. apply in_map_iff in Hin.
  destruct Hin as (i & <- & Hi). apply in_seq in Hi.
  pose proof (numBlocks_pos size chunkSize Hc Hs) as Hn.
  pose proof (last_chunk_bounds size chunkSize Hc) as Hlast.
  unfold operationAt. cbn [contentLength].
  destruct (Z.eqb_spec (Z.of_nat i) (numBlocksOf size chunkSize - 1))
    as [->|_]; lia.
Qed.

(** X11. In every run of an upload, whatever the remote layer answers, a
    flush call is made only at position [size] and only as the last effect
    of the run: before it come the create call and the append calls of the
    whole plan, in that order, and every one of the appends has settled.
    The appended ranges follow one another from offset 0 and their lengths
    add up to [size]. *)
Theorem flush_follows_every_append size options o t position :
  run size options = Some (o, t) ->
  In (FlushData position) (remoteCallsOf t) ->
  position = size
  /\ exists t0,
       t = t0 ++ [Issued (FlushData size)]
       /\ inFlight t0 = 0
       /\ remoteCallsOf t0 =
          Create :: map (appendCallOf bodyFactory) (planOf size options)
       /\ contiguousFrom 0 (map chunkOf (planOf size options))
       /\ totalLength (map chunkOf (planOf size options)) = size.
Proof.
  intros Hrun Hin.
  destruct (run_shape _ _ _ _ Hrun)
    as [[Hnone _]|(Hnz & Hmax & Hvalid & Hblocks & t0 & -> & Hfl & Hcalls & _)].
  { now apply Hnone in Hin. }
  rewrite remoteCallsOf_app, Hcalls in Hin. cbn [remoteCallsOf flat_map] in Hin.
  split.
  - apply in_app_or in Hin. destruct Hin as [[Hin|Hin]|[Hin|[]]].
    + discriminate.
    + apply in_map_iff in Hin. destruct Hin as (op & Hop & _). discriminate.
    + now injection Hin.
  - exists t0. repeat split; trivial.
    + unfold planOf.
      destruct (Z.leb_spec size (resolveSingleUploadThreshold options));
        [cbn; auto|].
      destruct Hvalid as (Hchunk & _ & Hthr).
      apply queue_covers; lia.
    + unfold planOf.
      destruct (Z.leb_spec size (resolveSingleUploadThreshold options));
        [cbn; lia|].
      destruct Hvalid as (Hchunk & _ & Hthr).
      apply queue_covers; lia.
Qed.

(** X12. An upload above the single-upload threshold that returns, with a
    progress callback in its options, has called the callback once for each
    chunk: each reported total is larger than the one before, the first is
    positive and the last is [size]. *)
Theorem progress_reports_reach_size size options callback response t :
  onProgress options = Some callback ->
  resolveSingleUploadThreshold options < size ->
  run size options = Some (Returned response, t) ->
  increasing 0 (loadedBytesOf t)
  /\ last (loadedBytesOf t) 0 = size
  /\ Z.of_nat (List.length (loadedBytesOf t)) =
     ceilDiv size (resolveChunkSize size options).
Proof.
  intros Hcb Hlarge Hrun.
  destruct (run_shape _ _ _ _ Hrun)
    as [[_ Hempty]|(Hnz & Hmax & Hvalid & Hblocks & t0 & -> & _ & _ & _
                    & Hpool)].
  { destruct (Hempty response eq_refl) as [-> ->].
    cbn. now repeat split. }
  destruct (Hpool Hlarge) as (tp & t1 & -> & Hbatch).
  destruct Hvalid as (Hchunk & _ & Hthr).
  assert (Hplan : planOf size options =
                  operationsOf size (resolveChunkSize size options)
                    (numBlocksOf size (resolveChunkSize size options))).
  { unfold planOf.
    destruct (Z.leb_spec size (resolveSingleUploadThreshold options));
      [lia|reflexivity]. }
  destruct (batchDo_progress _ _ _ _ _ _ _ _ _ _ _ _ Hcb Hbatch)
    as (Hinc & Hlast & Hsum & Hcount).
  { cbn [app]. rewrite Hplan. apply queue_positive; lia. }
  rewrite !loadedBytesOf_app. cbn [loadedBytesOf flat_map app].
  rewrite app_nil_r.
  assert (Hsize : lengthsOf (planOf size options) = size).
  { rewrite <- totalLength_chunks, Hplan. apply queue_covers; lia. }
  repeat split.
  - exact Hinc.
  - rewrite Hlast, Hsum, Hsize. cbn. lia.
  - rewrite Hcount, Hplan. cbn [List.length Nat.add].
    apply queue_length; lia.
Qed.


(** X13. Left unset, the chunk size is derived from the size of the
    payload; when the constants fit together, the derived chunk size of a
    payload within the size limit passes the chunk size check and the
    number of blocks passes the block count check. *)
Theorem derived_chunk_size_fits size options :
  consistentConstants ->
  falsyNumber (chunkSize options) = true ->
  0 < size <= FILE_MAX_SIZE_BYTES ->
  1 <= resolveChunkSize size options <= FILE_UPLOAD_MAX_CHUNK_SIZE
  /\ numBlocksOf size (resolveChunkSize size options)
     <= BLOCK_BLOB_MAX_BLOCKS.
Proof.
  intros (Hblocks & Hdefault & Hmax) Hunset Hsize.
  unfold resolveChunkSize. rewrite Hunset. cbv zeta.
  assert (Hq : BLOCK_BLOB_MAX_BLOCKS
               * (ceilDiv size BLOCK_BLOB_MAX_BLOCKS - 1) < size
               <= BLOCK_BLOB_MAX_BLOCKS * ceilDiv size BLOCK_BLOB_MAX_BLOCKS)
    by (apply ceilDiv_spec; lia).
  set (q := ceilDiv size BLOCK_BLOB_MAX_BLOCKS) in *.
  assert (Hqmax : q <= FILE_UPLOAD_MAX_CHUNK_SIZE) by nia.
  destruct (Z.ltb_spec q FILE_UPLOAD_DEFAULT_CHUNK_SIZE) as [Hlt|Hge].
  - split; [lia|].
    rewrite numBlocks_ceil by lia.
    assert (Hn := ceilDiv_spec size FILE_UPLOAD_DEFAULT_CHUNK_SIZE).
    specialize (Hn ltac:(lia)). nia.
  - split; [lia|].
    rewrite numBlocks_ceil by lia.
    assert (Hn := ceilDiv_spec size q). specialize (Hn ltac:(lia)). nia.
Qed.

End Runs.

Section Stream.

Context {constants : Constants}.
Variable remote : RemoteCall -> Exn + FileUploadResponse.

(** X14. [uploadStream] creates the file before it looks at its options:
    in every run the create call is the one effect of the set-up, also when
    an option is refused.  When the set-up succeeds, the buffer size is
    within the chunk size limits, there are as many buffers as the resolved
    [maxConcurrency], and the number of concurrent handlers is three
    quarters of that, rounded up: at least one and at most the number of
    buffers. *)
Theorem uploadStream_setup options o t :
  uploadStreamSetup remote options = Some (o, t) ->
  t = [Issued Create]
  /\ forall bufferSize maxBuffers concurrency,
       o = Returned (bufferSize, maxBuffers, concurrency) ->
       1 <= bufferSize <= FILE_UPLOAD_MAX_CHUNK_SIZE
       /\ maxBuffers = resolveMaxConcurrency options
       /\ 1 <= concurrency <= maxBuffers
       /\ 3 * maxBuffers <= 4 * concurrency < 3 * maxBuffers + 4.
Proof.
  unfold uploadStreamSetup, create, call, throw, ret.
  destruct (remote Create) as [e|createRes]; cbn [bind].
  { intros Hs. injection Hs as <- <-. split; [reflexivity|discriminate]. }
  cbv zeta.
  set (size := if falsyNumber (chunkSize options)
               then FILE_UPLOAD_DEFAULT_CHUNK_SIZE
               else orZero (chunkSize options)).
  destruct (Z.ltb_spec size 1) as [?|Hlow]; cbn [orb after app].
  { intros Hs. injection Hs as <- <-. split; [reflexivity|discriminate]. }
  destruct (Z.gtb_spec size FILE_UPLOAD_MAX_CHUNK_SIZE) as [?|Hhigh].
  { intros Hs. injection Hs as <- <-. split; [reflexivity|discriminate]. }
  destruct (Z.leb_spec (resolveMaxConcurrency options) 0) as [?|Hconc].
  { intros Hs. injection Hs as <- <-. split; [reflexivity|discriminate]. }
  intros Hs. injection Hs as <- <-. split; [reflexivity|].
  intros bufferSize maxBuffers concurrency Hr.
  injection Hr as <- <- <-.
  assert (Hc := ceilDiv_spec (resolveMaxConcurrency options * 3) 4).
  specialize (Hc ltac:(lia)).
  repeat split; lia.
Qed.

End Stream.

(** *** Uploading a buffer *)

Lemma firstn_plus {A : Type} (a b : nat) : forall l : list A,
  firstn (a + b) l = firstn a l ++ firstn b (skipn a l).
Proof.
  induction a as [|a IH]; intros l; [reflexivity|].
  destruct l as [|x l]; cbn [Nat.add firstn skipn app].
  - now rewrite firstn_nil.
  - now rewrite IH.
Qed.

(** A slice that lies within the buffer. *)
Lemma slice_within {A : Type} (l : list A) (offset count : Z) :
  0 <= offset -> 0 <= count ->
  offset + count <= Z.of_nat (List.length l) ->
  slice l offset (offset + count) =
  firstn (Z.to_nat count) (skipn (Z.to_nat offset) l).
Proof.
  intros Ho Hc Hlen. unfold slice, clampIndex. cbv zeta.
  destruct (Z.ltb_spec offset 0); [lia|].
  destruct (Z.ltb_spec (offset + count) 0); [lia|].
  do 2 f_equal; lia.
Qed.

(** The slices for chunks that follow one another make up the range they
    span, and each has the length of its chunk. *)
Lemma slices_cover (data : list Byte.byte) : forall ops offset,
  0 <= offset ->
  contiguousFrom offset (map chunkOf ops) ->
  Forall (fun op => 0 <= contentLength op) ops ->
  offset + lengthsOf ops <= Z.of_nat (List.length data) ->
  List.concat (map (fun op => slice data (start op)
                               (start op + contentLength op)) ops) =
  firstn (Z.to_nat (lengthsOf ops)) (skipn (Z.to_nat offset) data)
  /\ Forall (fun op =>
              Z.of_nat (List.length
                          (slice data (start op)
                                 (start op + contentLength op))) =
              contentLength op) ops.
Proof.
  induction ops as [|op ops IH]; intros offset Ho Hcont Hpos Hlen.
  - split; [reflexivity|constructor].
  - inversion Hpos as [|? ? Hop Hrest]; subst.
    cbn [map chunkOf contiguousFrom] in Hcont. destruct Hcont as [Hs Hcont].
    unfold lengthsOf in Hlen. cbn [fold_right] in Hlen.
    fold (lengthsOf ops) in Hlen.
    assert (Hsum : 0 <= lengthsOf ops).
    { clear - Hrest. unfold lengthsOf.
      induction Hrest as [|x l Hx _ IHl]; cbn [fold_right]; lia. }
    destruct (IH (start op + contentLength op)) as [Hcat Hall];
      trivial; try lia.
    assert (Hslice : slice data (start op) (start op + contentLength op) =
                     firstn (Z.to_nat (contentLength op))
                            (skipn (Z.to_nat offset) data)).
    { rewrite Hs. apply slice_within; lia. }
    split.
    + cbn [map List.concat]. rewrite Hcat, Hslice.
      unfold lengthsOf. cbn [fold_right]. fold (lengthsOf ops).
      rewrite (Z2Nat.inj_add (contentLength op) (lengthsOf ops)) by lia.
      rewrite firstn_plus, skipn_skipn. do 3 f_equal. lia.
    + constructor; [|exact Hall].
      rewrite Hslice, length_firstn, length_skipn. lia.
Qed.

Section Buffers.

Context {constants : Constants}.

Abbreviation buffers := (withBufferBodies constants).

(** The body of an append call. *)
Lemma bodiesOf_calls (t : list (@Event buffers)) :
  bodiesOf t =
  flat_map (fun c => match c with
                     | AppendData body _ _ => [body]
                     | _ => []
                     end) (remoteCallsOf t).
Proof.
  induction t as [|ev t IH]; [reflexivity|].
  destruct ev as [[| |]| | |]; cbn [bodiesOf remoteCallsOf flat_map app];
    fold (bodiesOf t); fold (remoteCallsOf t); now rewrite IH.
Qed.

Lemma bodies_of_appends (factory : Z -> Z -> list Byte.byte)
    (ops : list Operation) :
  flat_map (fun c : @RemoteCall buffers =>
              match c with
              | AppendData body _ _ => [body]
              | _ => []
              end) (map (@appendCallOf buffers factory) ops) =
  map (fun op => factory (start op) (contentLength op)) ops.
Proof.
  induction ops as [|op ops IH]; [reflexivity|].
  cbn [map flat_map appendCallOf app]. now rewrite IH.
Qed.

(** X15. When the upload of a buffer returns, the bodies of its append
    calls, put together in the order the calls were issued, are the bytes
    of the buffer, and each call declares the length of its own body. *)
Theorem buffer_upload_sends_the_buffer
    (remote : @RemoteCall buffers -> Exn + @FileUploadResponse buffers)
    (choose : list Operation -> nat) (data : list Byte.byte)
    (options : FileParallelUploadOptions) response t :
  upload remote choose data options = Some (Returned response, t) ->
  List.concat (bodiesOf t) = data
  /\ Forall (fun c : @RemoteCall buffers =>
               match c with
               | AppendData body _ length =>
                 Z.of_nat (List.length (body : list Byte.byte)) = length
               | _ => True
               end) (remoteCallsOf t).
Proof.
  unfold upload. intros Hrun.
  set (factory := fun offset size : Z => slice data offset (offset + size))
    in Hrun.
  destruct (@run_shape buffers remote factory choose _ _ _ _ Hrun)
    as [[_ Hempty]|(Hnz & Hmax & Hvalid & Hblocks & t0 & -> & _ & Hcalls & _)].
  { destruct (Hempty response eq_refl) as [Hz ->].
    destruct data; [|discriminate].
    split; [reflexivity|]. cbn. repeat constructor. }
  set (ops := @planOf buffers (Z.of_nat (List.length data)) options) in *.
  destruct (slices_cover data ops 0) as [Hcat Hall]; try lia.
  - unfold ops, planOf.
    destruct (Z.leb_spec (Z.of_nat (List.length data))
                (@resolveSingleUploadThreshold buffers options));
      [cbn; auto|].
    destruct Hvalid as (Hchunk & _ & Hthr).
    apply queue_covers; lia.
  - unfold ops, planOf.
    destruct (Z.leb_spec (Z.of_nat (List.length data))
                (@resolveSingleUploadThreshold buffers options)).
    + repeat constructor. cbn. lia.
    + destruct Hvalid as (Hchunk & _ & Hthr).
      eapply Forall_impl; [|apply queue_positive; lia].
      cbn beta. intros; lia.
  - rewrite <- totalLength_chunks. unfold ops, planOf.
    destruct (Z.leb_spec (Z.of_nat (List.length data))
                (@resolveSingleUploadThreshold buffers options));
      [cbn; lia|].
    destruct Hvalid as (Hchunk & _ & Hthr).
    assert (Htotal := queue_covers (Z.of_nat (List.length data))
                        (@resolveChunkSize buffers
                           (Z.of_nat (List.length data)) options)).
    specialize (Htotal ltac:(lia) ltac:(lia)). lia.
  - assert (Hsize : lengthsOf ops = Z.of_nat (List.length data)).
    { rewrite <- totalLength_chunks. unfold ops, planOf.
      destruct (Z.leb_spec (Z.of_nat (List.length data))
                  (@resolveSingleUploadThreshold buffers options));
        [cbn; lia|].
      destruct Hvalid as (Hchunk & _ & Hthr).
      apply queue_covers; lia. }
    split.
    + rewrite bodiesOf_calls, remoteCallsOf_app, Hcalls.
      cbn [remoteCallsOf flat_map app]. rewrite flat_map_app.
      cbn [flat_map app]. rewrite app_nil_r.
      rewrite bodies_of_appends. unfold factory. rewrite Hcat, Hsize.
      rewrite Nat2Z.id. cbn [Z.to_nat skipn]. apply firstn_all.
    + rewrite remoteCallsOf_app, Hcalls.
      cbn [remoteCallsOf flat_map app].
      constructor; [exact I|].
      apply Forall_app. split; [|repeat constructor].
      apply Forall_map. unfold appendCallOf, factory. exact Hall.
Qed.

End Buffers.

(** *** Sample runs *)

#[local] Existing Instance sampleConstants.

(** The upload of 10,000,000 bytes in chunks of 4,000,000 flushes at
    10,000,000, after the three appends have settled. *)
Lemma flush_order_witness :
  exists o t,
    uploadSeekableInternal sampleRemote sampleBodyFactory newestFirst 10000000
      (sampleOptions (Some 4000000) (Some 3) (Some 1000000)) = Some (o, t)
    /\ In (FlushData 10000000) (remoteCallsOf t)
    /\ 10000000 = 10000000
    /\ exists t0,
         t = t0 ++ [Issued (FlushData 10000000)]
         /\ inFlight t0 = 0
         /\ remoteCallsOf t0 =
            Create
            :: map (appendCallOf sampleBodyFactory)
                   (planOf 10000000
                      (sampleOptions (Some 4000000) (Some 3) (Some 1000000)))
         /\ contiguousFrom 0
              (map chunkOf
                 (planOf 10000000
                    (sampleOptions (Some 4000000) (Some 3) (Some 1000000))))
         /\ totalLength
              (map chunkOf
                 (planOf 10000000
                    (sampleOptions (Some 4000000) (Some 3) (Some 1000000))))
            = 10000000.
Proof.
  eexists. eexists. split; [vm_compute; reflexivity|].
  split; [vm_compute; auto 10|].
  eapply (flush_follows_every_append sampleRemote sampleBodyFactory
            newestFirst 10000000
            (sampleOptions (Some 4000000) (Some 3) (Some 1000000))).
  - vm_compute. reflexivity.
  - vm_compute. auto 10.
Defined.

(** The same upload, its newest append settling first, reports 2,000,000,
    then 6,000,000, then 10,000,000 bytes. *)
Lemma progress_reports_witness :
  exists response t,
    uploadSeekableInternal sampleRemote sampleBodyFactory newestFirst 10000000
      (sampleOptions (Some 4000000) (Some 3) (Some 1000000)) =
    Some (Returned response, t)
    /\ loadedBytesOf t = [2000000; 6000000; 10000000]
    /\ increasing 0 (loadedBytesOf t)
    /\ last (loadedBytesOf t) 0 = 10000000
    /\ Z.of_nat (List.length (loadedBytesOf t)) =
       ceilDiv 10000000
         (resolveChunkSize 10000000
            (sampleOptions (Some 4000000) (Some 3) (Some 1000000))).
Proof.
  eexists. eexists. split; [vm_compute; reflexivity|].
  split; [vm_compute; reflexivity|].
  apply (progress_reports_reach_size sampleRemote sampleBodyFactory
           newestFirst 10000000
           (sampleOptions (Some 4000000) (Some 3) (Some 1000000))
           (fun _ => None) "flushed"%string).
  - reflexivity.
  - vm_compute. reflexivity.
  - vm_compute. reflexivity.
Defined.

(** With the sample constants, five terabytes are uploaded in chunks of
    100,000,000 bytes, 50,000 of them. *)
Lemma derived_chunk_size_witness :
  @consistentConstants sampleConstants
  /\ resolveChunkSize 5000000000000 (sampleOptions None None None) = 100000000
  /\ 1 <= resolveChunkSize 5000000000000 (sampleOptions None None None)
       <= FILE_UPLOAD_MAX_CHUNK_SIZE
  /\ numBlocksOf 5000000000000
       (resolveChunkSize 5000000000000 (sampleOptions None None None))
     <= BLOCK_BLOB_MAX_BLOCKS.
Proof.
  assert (Hc : @consistentConstants sampleConstants)
    by (unfold consistentConstants; cbn; lia).
  split; [exact Hc|]. split; [reflexivity|].
  apply (@derived_chunk_size_fits sampleConstants 5000000000000
           (sampleOptions None None None) Hc); [reflexivity|cbn; lia].
Defined.

(** With [maxConcurrency = 6] and the default chunk size, the stream is
    read into six buffers of 8 MiB, handled five at a time. *)
Lemma uploadStream_setup_witness :
  uploadStreamSetup sampleRemote (sampleOptions None (Some 6) None) =
  Some (Returned (8388608, 6, 5), [Issued Create])
  /\ [Issued Create] = [Issued (@Create sampleConstants)]
  /\ forall bufferSize maxBuffers concurrency,
       Returned (8388608, 6, 5) =
       Returned (bufferSize, maxBuffers, concurrency) ->
       1 <= bufferSize <= FILE_UPLOAD_MAX_CHUNK_SIZE
       /\ maxBuffers = resolveMaxConcurrency (sampleOptions None (Some 6) None)
       /\ 1 <= concurrency <= maxBuffers
       /\ 3 * maxBuffers <= 4 * concurrency < 3 * maxBuffers + 4.
Proof.
  split; [reflexivity|].
  apply (uploadStream_setup sampleRemote (sampleOptions None (Some 6) None)).
  reflexivity.
Defined.

(** The eleven bytes of "hello world", uploaded in chunks of four bytes:
    the bodies are "hell", "o wo" and "rld". *)
Lemma buffer_upload_witness :
  exists response t,
    upload acceptingRemote newestFirst elevenBytes
      (sampleOptions (Some 4) None None) = Some (Returned response, t)
    /\ List.length (bodiesOf t) = 3%nat
    /\ List.concat (bodiesOf t) = elevenBytes
    /\ Forall (fun c : @RemoteCall (withBufferBodies smallConstants) =>
                 match c with
                 | AppendData body _ length =>
                   Z.of_nat (List.length (body : list Byte.byte)) = length
                 | _ => True
                 end) (remoteCallsOf t).
Proof.
  eexists. eexists. split; [vm_compute; reflexivity|].
  split; [reflexivity|].
  apply (@buffer_upload_sends_the_buffer smallConstants acceptingRemote
           newestFirst elevenBytes (sampleOptions (Some 4) None None)
           "ok"%string).
  vm_compute. reflexivity.
Defined.

End TransferProofs.
